(** * gs2mesh_utils/colmap_utils.py: frame extraction, COLMAP pose reading and
      the MobileBrick known-pose file synthesizer.

    The Python functions are embedded as programs of a small state-and-exception
    monad over a model of the file system and of the console: the folders and
    the regular files by path, without symbolic links and permissions, and with
    the failures of [os.makedirs], [os.listdir], [open] and [cv2.imwrite] on
    paths that are empty, taken, or not reachable.  The numeric
    libraries the module calls (float parsing and printing, [np.linalg.inv],
    scipy's [Rotation], the third-party [q_to_R]) are an interface, [NumLib];
    an exact integer instance of it is used to run the programs on concrete
    files. *)

From Stdlib Require Import ZArith Lia Ascii String Decimal DecimalFacts DecimalString DecimalNat.
From Stdlib Require DecimalPos.
From stdpp Require Import base option list strings gmap sets sorting.

Local Open Scope string_scope.
Local Open Scope Z_scope.

(** ** Exceptions and results *)

Inductive exn : Type :=
  | ZeroDivisionError
  | FileNotFoundError
  | FileExistsError
  | NotADirectoryError
  | IsADirectoryError
  | ValueError
  | IndexError
  | LinAlgError.

Inductive result (A : Type) : Type :=
  | Ok (a : A)
  | Raise (e : exn).
Arguments Ok {A} a.
Arguments Raise {A} e.

Definition is_ok {A} (r : result A) : bool :=
  match r with Ok _ => true | Raise _ => false end.

Definition raises {A} (r : result A) : Prop :=
  match r with Ok _ => False | Raise _ => True end.

Definition of_option {A} (e : exn) (o : option A) : result A :=
  match o with Some a => Ok a | None => Raise e end.

Definition rbind {A B} (r : result A) (k : A → result B) : result B :=
  match r with Ok a => k a | Raise e => Raise e end.

Fixpoint rmapM {A B} (f : A → result B) (l : list A) : result (list B) :=
  match l with
  | [] => Ok []
  | x :: l' => rbind (f x) (λ y, rbind (rmapM f l') (λ ys, Ok (y :: ys)))
  end.

(** ** Text helpers: decimal printing, zero padding, paths *)

(** [str(n)] for a non-negative Python int. *)
Definition str_nat (n : nat) : string := NilEmpty.string_of_uint (Nat.to_uint n).

(** [str(z)] for a Python int. *)
Definition str_int (z : Z) : string :=
  if z <? 0 then "-" +:+ str_nat (Z.to_nat (- z)) else str_nat (Z.to_nat z).

Fixpoint zeros (n : nat) : string :=
  match n with O => "" | S n' => String "0"%char (zeros n') end.

(** The format spec [05] on a non-negative int: decimal digits, padded on the
    left with zeros up to width 5 (longer numbers are not truncated). *)
Definition format_05 (n : nat) : string :=
  let s := str_nat n in zeros (5 - String.length s) +:+ s.

Fixpoint ends_with_slash (s : string) : bool :=
  match s with
  | "" => false
  | String a "" => bool_decide (a = "/"%char)
  | String _ s' => ends_with_slash s'
  end.

Definition is_abs (s : string) : bool :=
  match s with String "/"%char _ => true | _ => false end.

(** [os.path.join a b] on POSIX paths. *)
Definition os_path_join (a b : string) : string :=
  if is_abs b then b
  else if bool_decide (a = "") then b
  else if ends_with_slash a then a +:+ b
  else a +:+ "/" +:+ b.

Fixpoint has_slash (s : string) : bool :=
  match s with
  | "" => false
  | String a s' => bool_decide (a = "/"%char) || has_slash s'
  end.

(** The folders on the way to a relative path: its prefixes that end just
    before a slash, the shortest first. *)
Fixpoint ancestors (s : string) : list string :=
  match s with
  | "" => []
  | String a s' =>
      ((if bool_decide (a = "/"%char) then [""] else []) ++ (String a <$> ancestors s'))%list
  end.

(** [os.path.dirname] of a relative path in normal form; the empty text
    stands for the working directory. *)
Definition parent (s : string) : string := default "" (last (ancestors s)).

(** The components of a path, split at the slashes. *)
Fixpoint components (s : string) : list string :=
  match s with
  | "" => [""]
  | String a s' =>
      if bool_decide (a = "/"%char) then "" :: components s'
      else match components s' with
           | c :: cs => String a c :: cs
           | [] => [String a ""]
           end
  end.

Definition is_name (s : string) : bool := negb (bool_decide (s ∈ [""; "."; ".."])).

(** A path relative to the working directory and in normal form: not empty,
    no slash in front or at the end, and every component a name other than
    [.] and [..]. *)
Definition plain (p : string) : bool :=
  negb (bool_decide (p = "")) && negb (is_abs p) && negb (ends_with_slash p) &&
  forallb is_name (components p).

(** ** The world: file system and console *)

(** A decoded frame, as its pixel buffer. *)
Definition image : Type := list N.

(** What [cv2.VideoCapture] finds in a video file that opens. *)
Record video : Type := MkVideo {
  v_fps : string;           (* the printed form of CAP_PROP_FPS *)
  v_width : Z;              (* int(CAP_PROP_FRAME_WIDTH) *)
  v_height : Z;             (* int(CAP_PROP_FRAME_HEIGHT) *)
  v_frames : list image     (* the frames the successive read() calls return *)
}.

Inductive content : Type :=
  | Text (s : string)
  | Video (v : video)
  | Png (im : image).

Record world : Type := MkWorld {
  dirs : gset string;               (* directories that exist *)
  files : gmap string content;      (* regular files, by path *)
  stdout : list string              (* lines printed so far, oldest first *)
}.

Definition all_paths (w : world) : list string :=
  elements (dirs w) ++ (map_to_list (files w)).*1.

Definition isdir (w : world) (d : string) : bool := bool_decide (d ∈ dirs w).

Definition isfile (w : world) (p : string) : bool := bool_decide (is_Some (files w !! p)).

(** The folder that holds [p] exists; a path without slash lies in the
    working directory. *)
Definition parent_is_dir (w : world) (p : string) : bool :=
  bool_decide (parent p = "") || isdir w (parent p).

(** A regular file lies on the way to [p]. *)
Definition file_above (w : world) (p : string) : bool := existsb (isfile w) (ancestors p).

(** What the system reports for a path that cannot be reached: ENOTDIR when a
    regular file lies on the way, ENOENT otherwise. *)
Definition no_entry (w : world) (p : string) : exn :=
  if file_above w p then NotADirectoryError else FileNotFoundError.

(** The worlds that stand for a file system: every path is relative and in
    normal form, the folder that holds a file or a folder is a folder of the
    world (or the working directory), and no path names both a folder and a
    regular file.  There are no symbolic links, and every folder can be
    written to. *)
Definition tidy (w : world) : bool :=
  forallb (λ p, plain p && parent_is_dir w p) (all_paths w) &&
  forallb (λ p, negb (isfile w p)) (elements (dirs w)).

(** ** The monad of the embedded programs *)

Definition M (A : Type) : Type := world → result A * world.

Definition ret {A} (a : A) : M A := λ w, (Ok a, w).
Definition throw {A} (e : exn) : M A := λ w, (Raise e, w).
Definition bind {A B} (c : M A) (k : A → M B) : M B :=
  λ w, match c w with
       | (Ok a, w') => k a w'
       | (Raise e, w') => (Raise e, w')
       end.
Definition lift {A} (r : result A) : M A := λ w, (r, w).

Notation "'let*' x ':=' c 'in' k" := (bind c (λ x, k))
  (at level 10, x binder, c at level 100, k at level 200).
Notation "c '>>' k" := (bind c (λ _, k))
  (at level 190, right associativity).

Definition when (b : bool) (c : M unit) : M unit := if b then c else ret tt.

Definition print (s : string) : M unit :=
  λ w, (Ok tt, MkWorld (dirs w) (files w) (stdout w ++ [s])).

Definition os_path_exists (p : string) : M bool :=
  λ w, (Ok (bool_decide (p ∈ dirs w) || bool_decide (is_Some (files w !! p))), w).

(** [os.makedirs(p, exist_ok=...)]: the folder and the missing folders on the
    way to it are created.  The empty path raises FileNotFoundError, a regular
    file at [p] FileExistsError, an existing folder FileExistsError unless
    [exist_ok], a regular file on the way NotADirectoryError; nothing is
    created then. *)
Definition os_makedirs (p : string) (exist_ok : bool) : M unit :=
  λ w, if bool_decide (p = "") then (Raise FileNotFoundError, w)
       else if isfile w p then (Raise FileExistsError, w)
       else if isdir w p
            then (if exist_ok then (Ok tt, w) else (Raise FileExistsError, w))
       else if file_above w p then (Raise NotADirectoryError, w)
       else (Ok tt, MkWorld ({[p]} ∪ list_to_set (ancestors p) ∪ dirs w)
                      (files w) (stdout w)).

Definition write_file (p : string) (c : content) : M unit :=
  λ w, (Ok tt, MkWorld (dirs w) (<[p := c]> (files w)) (stdout w)).

(** ** extract_frames *)

(** [cv2.VideoCapture(path)]: [None] when [isOpened()] is false. *)
Definition cv2_VideoCapture (p : string) : M (option video) :=
  λ w, (Ok (match files w !! p with Some (Video v) => Some v | _ => None end), w).

(** [cv2.imwrite(path, image)]: the PNG encoding of the frame is stored under
    the path.  When the file cannot be created there (the path is empty or a
    folder, or the folder that should hold it does not exist) nothing is
    stored and the call returns False, which the caller does not look at. *)
Definition cv2_imwrite (p : string) (im : image) : M unit :=
  λ w, if negb (bool_decide (p = "")) && negb (isdir w p) && parent_is_dir w p
       then write_file p (Png im) w
       else (Ok tt, w).

(** [a % b] on Python ints: the sign of the result follows the divisor, and a
    zero divisor raises. *)
Definition py_mod (a b : Z) : result Z :=
  if b =? 0 then Raise ZeroDivisionError else Ok (a mod b).

Definition frame_name (count : nat) : string := "IMG_" +:+ format_05 count +:+ ".png".

(** The [while success] loop.  The list holds the frames that the pending and
    the later [read()] calls return; when it is empty [success] is false. *)
Fixpoint frame_loop (output_folder : string) (interval : Z) (count : nat)
    (pending : list image) : M unit :=
  match pending with
  | [] => ret tt
  | im :: rest =>
      let* r := lift (py_mod (Z.of_nat count) interval) in
      when (r =? 0) (cv2_imwrite (os_path_join output_folder (frame_name count)) im) >>
      frame_loop output_folder interval (S count) rest
  end.

Definition extract_frames (video_path output_folder : string) (interval : Z)
    (verbose : bool) : M unit :=
  let* ex := os_path_exists output_folder in
  (if negb ex
   then when verbose (print ("Creating output folder " +:+ output_folder)) >>
        os_makedirs output_folder false
   else when verbose (print ("Output folder " +:+ output_folder +:+ " exists"))) >>
  let* vidcap := cv2_VideoCapture video_path in
  match vidcap with
  | None => print "Error: Could not open video."
  | Some v =>
      when verbose (print ("Video resolution: " +:+ str_int (v_width v) +:+ "x" +:+
                           str_int (v_height v) +:+ ", FPS: " +:+ v_fps v)) >>
      when verbose (print "Extracting frames...") >>
      frame_loop output_folder interval 0 (v_frames v) >>
      when verbose (print "Done extracting frames")
  end.

(** ** The numeric libraries, as an interface

    Python floats and the library routines that compute on them are not
    modelled; the programs below are generic in them. *)

Class NumLib : Type := {
  float : Type;
  (** [float(s)]; [None] stands for the ValueError *)
  float_of_str : string → option float;
  (** the text an f-string prints for a float64 *)
  str_of_float : float → string;
  (** [np.linalg.inv] on a 2-D array, given by its rows *)
  np_linalg_inv : list (list float) → result (list (list float));
  (** [scipy.spatial.transform.Rotation] *)
  Rotation : Type;
  R_from_matrix : list (list float) → result Rotation;
  R_as_quat : Rotation → float * float * float * float;
  R_from_quat : float * float * float * float → result Rotation;
  R_as_matrix : Rotation → list (list float);
  (** third_party [camera_utils.quaternion.q_to_R], on one quaternion *)
  q_to_R : float * float * float * float →
           (float * float * float) * (float * float * float) * (float * float * float)
}.

Section Colmap.
Context `{NL : NumLib}.

Definition quat : Type := float * float * float * float.
Definition vec3 : Type := float * float * float.
Definition mat33 : Type := vec3 * vec3 * vec3.
Definition mat34 : Type := quat * quat * quat.

(** A numpy array of dimension 0, 1 or 2. *)
Inductive ndarray : Type :=
  | Arr0 (x : float)
  | Arr1 (v : list float)
  | Arr2 (rows : list (list float)).

(** ** Rotation converters *)

Definition matrix_to_quaternion (rotation_matrix : list (list float)) : result quat :=
  rbind (R_from_matrix rotation_matrix) (λ r, Ok (R_as_quat r)).

Definition quaternion_to_matrix (quaternion : quat) : result (list (list float)) :=
  rbind (R_from_quat quaternion) (λ r, Ok (R_as_matrix r)).

(** ** Reading text files *)

Definition LF : ascii := "010"%char.

(** The lines of a text, without their terminators. *)
Fixpoint lines_go (cur : string) (s : string) : list string :=
  match s with
  | "" => if bool_decide (cur = "") then [] else [String.rev cur]
  | String a s' =>
      if bool_decide (a = LF) then String.rev cur :: lines_go "" s'
      else lines_go (String a cur) s'
  end.
Definition lines : string → list string := lines_go "".

Definition read_text (p : string) : M string :=
  λ w, match files w !! p with
       | None => (Raise FileNotFoundError, w)
       | Some (Text s) => (Ok s, w)
       | Some _ => (Raise ValueError, w)      (* not decodable as text *)
       end.

Fixpoint strip_comment (s : string) : string :=
  match s with
  | "" => ""
  | String a s' => if bool_decide (a = "#"%char) then "" else String a (strip_comment s')
  end.

Definition parse_float (s : string) : result float := of_option ValueError (float_of_str s).

(** [int(s)] on a token: an optional minus sign and decimal digits. *)
Definition parse_int (s : string) : result Z :=
  of_option ValueError (Z.of_int <$> NilZero.int_of_string s).

Definition same_length {A} (rows : list (list A)) : bool :=
  match rows with
  | [] => true
  | r :: rs => forallb (λ r', bool_decide (length r' = length r)) rs
  end.

(** numpy's squeeze of the table that [np.loadtxt] has read. *)
Definition squeeze (rows : list (list float)) : ndarray :=
  match rows with
  | [] => Arr1 []
  | [[x]] => Arr0 x
  | [r] => Arr1 r
  | _ => match rmapM (λ r, match r with [x] => Ok x | _ => Raise ValueError end) rows with
         | Ok col => Arr1 col
         | Raise _ => Arr2 rows
         end
  end.

(** [np.loadtxt(path)]: comments stripped, blank lines skipped, one row of
    floats per line, all rows of one length. *)
Definition np_loadtxt (p : string) : M ndarray :=
  let* s := read_text p in
  let toks := filter (λ r, r ≠ []) (String.words <$> (strip_comment <$> lines s)) in
  let* rows := lift (rmapM (rmapM parse_float) toks) in
  if same_length rows then ret (squeeze rows) else throw ValueError.

(** ** The pose reader *)

(** Modelled from the spec: the image record of third_party
    [read_write_model], with the fields of the two lines of an image. *)
Record Image : Type := MkImage {
  img_id : Z;
  qvec : quat;
  tvec : vec3;
  camera_id : Z;
  img_name : string;
  points2D : list (float * float * Z)
}.

Definition parse_quat (l : list string) : result quat :=
  match l with
  | [a; b; c; d] =>
      rbind (parse_float a) (λ a, rbind (parse_float b) (λ b,
      rbind (parse_float c) (λ c, rbind (parse_float d) (λ d, Ok (a, b, c, d)))))
  | _ => Raise ValueError
  end.

Definition parse_vec3 (l : list string) : result vec3 :=
  match l with
  | [a; b; c] =>
      rbind (parse_float a) (λ a, rbind (parse_float b) (λ b,
      rbind (parse_float c) (λ c, Ok (a, b, c))))
  | _ => Raise ValueError
  end.

(** Modelled from the spec: the observation line of the reader, triples
    X, Y, POINT3D_ID; it may be empty. *)
Fixpoint parse_points2D (l : list string) : result (list (float * float * Z)) :=
  match l with
  | [] => Ok []
  | x :: y :: k :: l' =>
      rbind (parse_float x) (λ x, rbind (parse_float y) (λ y,
      rbind (parse_int k) (λ k, rbind (parse_points2D l') (λ ps, Ok ((x, y, k) :: ps)))))
  | _ => Raise ValueError
  end.

(** Modelled from the spec: the metadata line of the reader, IMAGE_ID, QW, QX,
    QY, QZ, TX, TY, TZ, CAMERA_ID, NAME, with its observation line. *)
Definition parse_image_line (elems obs : list string) : result Image :=
  match elems with
  | i :: qw :: qx :: qy :: qz :: tx :: ty :: tz :: c :: n :: _ =>
      rbind (parse_int i) (λ i,
      rbind (parse_quat [qw; qx; qy; qz]) (λ q,
      rbind (parse_vec3 [tx; ty; tz]) (λ t,
      rbind (parse_int c) (λ c,
      rbind (parse_points2D obs) (λ ps, Ok (MkImage i q t c n ps))))))
  | _ => Raise IndexError
  end.

Definition is_comment (tok : string) : bool :=
  match tok with String "#"%char _ => true | _ => false end.

(** Modelled from the spec: the reader's pass over the lines; blank lines and
    comments are skipped, a later record of the same identifier replaces an
    earlier one. *)
Fixpoint read_image_records (ls : list string) (images : gmap Z Image)
    : result (gmap Z Image) :=
  match ls with
  | [] => Ok images
  | line :: rest =>
      match String.words line with
      | [] => read_image_records rest images
      | (tok :: _) as elems =>
          if is_comment tok then read_image_records rest images
          else match rest with
               | [] => rbind (parse_image_line elems [])
                         (λ im, Ok (<[img_id im := im]> images))
               | obs :: rest' =>
                   rbind (parse_image_line elems (String.words obs))
                     (λ im, read_image_records rest' (<[img_id im := im]> images))
               end
      end
  end.

(** Modelled from the spec: third_party [read_write_model.read_images_text],
    which is not part of the sources at hand.  It parses an images list
    (two lines per image: a metadata line with pose and file name, then an
    observation line that may be empty) into a dictionary keyed by image
    identifier, and raises on a missing or malformed file. *)
Definition read_images_text (path : string) : M (gmap Z Image) :=
  let* s := read_text path in
  lift (read_image_records (lines s) ∅).

Definition key_le (a b : Z * Image) : Prop := a.1 ≤ b.1.

#[global] Instance key_le_dec : RelDecision key_le.
Proof. intros a b. unfold key_le. apply _. Defined.

(** [sorted(d.items())]: the keys of a dictionary are distinct, so the order
    of the pairs is the order of their keys. *)
Definition sorted_items (d : gmap Z Image) : list (Z * Image) :=
  merge_sort key_le (map_to_list d).

(** [np.stack] of a list of equally shaped arrays: an empty list raises. *)
Definition np_stack {A} (l : list A) : result (list A) :=
  match l with [] => Raise ValueError | _ => Ok l end.

(** One slice of [torch.cat([Rs, tvecs[..., None]], dim=-1)]. *)
Definition cat_col (R : mat33) (t : vec3) : mat34 :=
  let '((a, b, c), (d, e, f), (g, h, i)) := R in
  let '(x, y, z) := t in
  ((a, b, c, x), (d, e, f, y), (g, h, i, z)).

Definition poses_from_file (extrinsic_file : string) : M (list mat34) :=
  let* extrinsics := read_images_text extrinsic_file in
  let images := sorted_items extrinsics in
  let* qvecs := lift (np_stack ((λ kv, qvec kv.2) <$> images)) in
  let* tvecs := lift (np_stack ((λ kv, tvec kv.2) <$> images)) in
  let Rs := q_to_R <$> qvecs in
  ret (zip_with cat_col Rs tvecs).

(** ** Directories *)

Fixpoint strip_prefix (p s : string) : option string :=
  match p, s with
  | "", _ => Some s
  | String a p', String b s' => if bool_decide (a = b) then strip_prefix p' s' else None
  | _, "" => None
  end.

Fixpoint first_component (s : string) : string :=
  match s with
  | "" => ""
  | String a s' => if bool_decide (a = "/"%char) then "" else String a (first_component s')
  end.

Definition as_dir (d : string) : string := if ends_with_slash d then d else d +:+ "/".

(** The name of the entry of directory [d] on the way to path [p]. *)
Definition entry_of (d p : string) : option string :=
  match strip_prefix (as_dir d) p with
  | Some n => if bool_decide (first_component n = "") then None else Some (first_component n)
  | None => None
  end.

(** [os.listdir(d)], in some order: the entries of [d] are the first path
    components below it.  A regular file at [d] raises NotADirectoryError, a
    path that is not there FileNotFoundError, or NotADirectoryError when a
    regular file lies on the way. *)
Definition os_listdir (d : string) : M (list string) :=
  λ w, if isdir w d then (Ok (remove_dups (omap (entry_of d) (all_paths w))), w)
       else if isfile w d then (Raise NotADirectoryError, w)
       else (Raise (no_entry w d), w).

(** [sorted([f for f in os.listdir(d) if os.path.isfile(os.path.join(d, f))],
    key=lambda x: x)] *)
Definition sorted_files (d : string) : M (list string) :=
  let* entries := os_listdir d in
  λ w, (Ok (merge_sort String.le (filter (λ f, isfile w (os_path_join d f)) entries)), w).

(** [p] lies below the directory [d]. *)
Definition below (d p : string) : Prop := is_Some (strip_prefix (as_dir d) p).

(** [os.system("rm -rf " + p)]: [p] and all that lies below it are gone; the
    exit status is ignored. *)
Definition rm_rf (p : string) : M unit :=
  λ w, (Ok tt,
        MkWorld (filter (λ k, k ≠ p ∧ ¬ below p k) (dirs w))
                (filter (λ kv, kv.1 ≠ p ∧ ¬ below p kv.1) (files w))
                (stdout w)).

(** [open(p, 'w')]: the file is created or emptied.  The empty path raises
    FileNotFoundError, a folder at [p] IsADirectoryError, and when the folder
    that should hold the file is not there the call raises NotADirectoryError
    or FileNotFoundError. *)
Definition open_w (p : string) : M unit :=
  λ w, if bool_decide (p = "") then (Raise FileNotFoundError, w)
       else if isdir w p then (Raise IsADirectoryError, w)
       else if parent_is_dir w p then write_file p (Text "") w
       else (Raise (no_entry w p), w).

(** [f.write(s)] on the file opened at [p]. *)
Definition f_write (p s : string) : M unit :=
  λ w, let old := match files w !! p with Some (Text t) => t | _ => "" end in
       (Ok tt, MkWorld (dirs w) (<[p := Text (old +:+ s)]> (files w)) (stdout w)).

Fixpoint for_enumerate {A} (i : nat) (l : list A) (body : nat → A → M unit) : M unit :=
  match l with
  | [] => ret tt
  | x :: l' => body i x >> for_enumerate (S i) l' body
  end.

(** ** The known-pose file synthesizer *)

Definition nl : string := String LF "".

Definition unwords (l : list string) : string := String.concat " " l.

Definition unpack3 {A} (l : list A) : result (A * A * A) :=
  match l with [a; b; c] => Ok (a, b, c) | _ => Raise ValueError end.

Definition arr_inv (a : ndarray) : result (list (list float)) :=
  match a with Arr2 m => np_linalg_inv m | _ => Raise LinAlgError end.

(** [m[:3, :3]] *)
Definition block33 (m : list (list float)) : list (list float) := take 3 <$> take 3 m.

(** [m[:3, 3]] *)
Definition col3 (m : list (list float)) : result (list float) :=
  match m with
  | [] => Raise IndexError
  | _ => rmapM (λ r, of_option IndexError (r !! 3%nat)) (take 3 m)
  end.

(** [a[i, j]] *)
Definition get2 (a : ndarray) (i j : nat) : result float :=
  match a with
  | Arr2 m => of_option IndexError (m !! i ≫= (.!! j))
  | _ => Raise IndexError
  end.

Definition image_line (i : nat) (q : quat) (t : vec3) (image_file : string) : string :=
  let '(qx, qy, qz, qw) := q in
  let '(tx, ty, tz) := t in
  unwords [str_nat (i + 1); str_of_float qw; str_of_float qx; str_of_float qy;
           str_of_float qz; str_of_float tx; str_of_float ty; str_of_float tz;
           str_nat (i + 1); image_file] +:+ nl.

Definition camera_line (i : nat) (fx fy cx cy : float) : string :=
  unwords [str_nat (i + 1); "PINHOLE"; "1920"; "1440"; str_of_float fx; str_of_float fy;
           str_of_float cx; str_of_float cy] +:+ nl.

Definition write_image (extrinsics_dir f : string) (i : nat) (p : string * string)
    : M unit :=
  let extrinsic_file := p.1 in
  let image_file := p.2 in
  let* extrinsic := np_loadtxt (os_path_join extrinsics_dir extrinsic_file) in
  let* extrinsic := lift (arr_inv extrinsic) in
  let* q := lift (matrix_to_quaternion (block33 extrinsic)) in
  let* t := lift (rbind (col3 extrinsic) unpack3) in
  f_write f (image_line i q t image_file) >>
  f_write f nl.

Definition write_camera (intrinsics_dir cameras_file : string) (i : nat)
    (p : string * string) : M unit :=
  let intrinsic_file := p.1 in
  let* intrinsic := np_loadtxt (os_path_join intrinsics_dir intrinsic_file) in
  let* fx := lift (get2 intrinsic 0 0) in
  let* fy := lift (get2 intrinsic 1 1) in
  let* cx := lift (get2 intrinsic 0 2) in
  let* cy := lift (get2 intrinsic 1 2) in
  f_write cameras_file (camera_line i fx fy cx cy).

Definition images_header : string :=
  "# Image list with two lines of data per image:" +:+ nl +:+
  "#   IMAGE_ID, QW, QX, QY, QZ, TX, TY, TZ, CAMERA_ID, NAME" +:+ nl +:+
  "#   POINTS2D[] as (X, Y, POINT3D_ID)" +:+ nl.

Definition cameras_header : string :=
  "# Camera list with one line of data per camera:" +:+ nl +:+
  "#   CAMERA_ID, MODEL, WIDTH, HEIGHT, PARAMS[]" +:+ nl.

Definition create_mobile_brick_colmap_files (orig_dir colmap_name : string) : M unit :=
  let sparse_folder := os_path_join (os_path_join orig_dir "sparse") "0" in
  os_makedirs sparse_folder true >>
  let extrinsics_dir := os_path_join orig_dir "pose" in
  let intrinsics_dir := os_path_join orig_dir "intrinsic" in
  let images_dir := os_path_join orig_dir "images" in
  rm_rf (os_path_join images_dir ".ipynb_checkpoints") >>
  let* extrinsics_files := sorted_files extrinsics_dir in
  let* intrinsics_files := sorted_files intrinsics_dir in
  let* image_files := sorted_files images_dir in
  let images_txt_path := os_path_join sparse_folder "images.txt" in
  open_w images_txt_path >>
  f_write images_txt_path ("# Image list with two lines of data per image:" +:+ nl) >>
  f_write images_txt_path
    ("#   IMAGE_ID, QW, QX, QY, QZ, TX, TY, TZ, CAMERA_ID, NAME" +:+ nl) >>
  f_write images_txt_path ("#   POINTS2D[] as (X, Y, POINT3D_ID)" +:+ nl) >>
  for_enumerate 0 (zip extrinsics_files image_files)
    (write_image extrinsics_dir images_txt_path) >>
  let cameras_txt_path := os_path_join sparse_folder "cameras.txt" in
  open_w cameras_txt_path >>
  f_write cameras_txt_path ("# Camera list with one line of data per camera:" +:+ nl) >>
  f_write cameras_txt_path ("#   CAMERA_ID, MODEL, WIDTH, HEIGHT, PARAMS[]" +:+ nl) >>
  for_enumerate 0 (zip extrinsics_files image_files)
    (write_camera intrinsics_dir cameras_txt_path) >>
  let points3d_txt_path := os_path_join sparse_folder "points3D.txt" in
  open_w points3d_txt_path.

(** ** Notions used in the statements about the pose reader and the synthesizer *)

Definition key_lt (a b : Z * Image) : Prop := a.1 < b.1.

(** The pose of one image record. *)
Definition pose_of (im : Image) : mat34 := cat_col (q_to_R (qvec im)) (tvec im).

(** A line that holds data: not blank and not a comment. *)
Definition data_line (line : string) : Prop :=
  match String.words line with
  | [] => False
  | tok :: _ => is_comment tok = false
  end.

(** The layout of an images list: blank lines and comments anywhere between
    records, and each record a metadata line that parses, followed by its
    observation line (which the end of the file may replace). *)
Inductive well_formed : list string → Prop :=
  | wf_end : well_formed []
  | wf_skip line rest :
      ¬ data_line line → well_formed rest → well_formed (line :: rest)
  | wf_record line obs rest :
      data_line line →
      is_ok (parse_image_line (String.words line) (String.words obs)) = true →
      well_formed rest → well_formed (line :: obs :: rest)
  | wf_last line :
      data_line line →
      is_ok (parse_image_line (String.words line) []) = true →
      well_formed [line].

(** What [np.loadtxt] makes of the file found at a path. *)
Definition loadtxt_of (c : option content) : result ndarray :=
  match c with
  | None => Raise FileNotFoundError
  | Some (Text s) =>
      rbind (rmapM (rmapM parse_float)
               (filter (λ r, r ≠ []) (String.words <$> (strip_comment <$> lines s))))
        (λ rows, if same_length rows then Ok (squeeze rows) else Raise ValueError)
  | Some _ => Raise ValueError
  end.

(** The two lines that the first loop writes for the pair [p] of an extrinsic
    file name and an image file name, given the files [m] it reads from. *)
Definition image_record (extrinsics_dir : string) (m : gmap string content) (i : nat)
    (p : string * string) (chunk : string) : Prop :=
  ∃ E Ei q t,
    loadtxt_of (m !! os_path_join extrinsics_dir p.1) = Ok E ∧
    arr_inv E = Ok Ei ∧
    matrix_to_quaternion (block33 Ei) = Ok q ∧
    rbind (col3 Ei) unpack3 = Ok t ∧
    chunk = image_line i q t p.2 +:+ nl.

(** The line that the second loop writes for the same pair: the matrix is
    loaded from the intrinsics folder under the extrinsic file's name. *)
Definition camera_record (intrinsics_dir : string) (m : gmap string content) (i : nat)
    (p : string * string) (chunk : string) : Prop :=
  ∃ K fx fy cx cy,
    loadtxt_of (m !! os_path_join intrinsics_dir p.1) = Ok K ∧
    get2 K 0 0 = Ok fx ∧ get2 K 1 1 = Ok fy ∧
    get2 K 0 2 = Ok cx ∧ get2 K 1 2 = Ok cy ∧
    chunk = camera_line i fx fy cx cy.

End Colmap.

(** ** An exact integer instance of the numeric libraries

    Floats are integers, printed and parsed in decimal.  [np.linalg.inv]
    inverts the rigid motions whose rotation block is integral and orthogonal
    and rejects everything else; a [Rotation] is a unit quaternion with
    integral components, stored scalar-last as scipy does. *)
Module IntLib.

Definition dot3 (a b : Z * Z * Z) : Z :=
  let '(a0, a1, a2) := a in let '(b0, b1, b2) := b in a0 * b0 + a1 * b1 + a2 * b2.

Definition inv (m : list (list Z)) : result (list (list Z)) :=
  match m with
  | [[a; b; c; x]; [d; e; f; y]; [g; h; i; z]; last] =>
      let r0 := (a, b, c) in let r1 := (d, e, f) in let r2 := (g, h, i) in
      if bool_decide (last = [0; 0; 0; 1]) &&
         bool_decide ([dot3 r0 r0; dot3 r0 r1; dot3 r0 r2; dot3 r1 r1; dot3 r1 r2; dot3 r2 r2]
                      = [1; 0; 0; 1; 0; 1])
      then Ok [[a; d; g; - (a * x + d * y + g * z)];
               [b; e; h; - (b * x + e * y + h * z)];
               [c; f; i; - (c * x + f * y + i * z)];
               [0; 0; 0; 1]]
      else Raise LinAlgError
  | _ => Raise LinAlgError
  end.

(** [(w, x, y, z)] to the rotation matrix, row by row. *)
Definition to_R (q : Z * Z * Z * Z) : (Z * Z * Z) * (Z * Z * Z) * (Z * Z * Z) :=
  let '(w, x, y, z) := q in
  ((1 - 2 * (y * y + z * z), 2 * (x * y - w * z), 2 * (w * y + x * z)),
   (2 * (x * y + w * z), 1 - 2 * (x * x + z * z), 2 * (y * z - w * x)),
   (2 * (x * z - w * y), 2 * (w * x + y * z), 1 - 2 * (x * x + y * y))).

Definition rows (R : (Z * Z * Z) * (Z * Z * Z) * (Z * Z * Z)) : list (list Z) :=
  let '((a, b, c), (d, e, f), (g, h, i)) := R in [[a; b; c]; [d; e; f]; [g; h; i]].

Definition from_matrix (m : list (list Z)) : result (Z * Z * Z * Z) :=
  if bool_decide (m = [[1; 0; 0]; [0; 1; 0]; [0; 0; 1]]) then Ok (0, 0, 0, 1)
  else if bool_decide (m = [[1; 0; 0]; [0; -1; 0]; [0; 0; -1]]) then Ok (1, 0, 0, 0)
  else if bool_decide (m = [[-1; 0; 0]; [0; 1; 0]; [0; 0; -1]]) then Ok (0, 1, 0, 0)
  else if bool_decide (m = [[-1; 0; 0]; [0; -1; 0]; [0; 0; 1]]) then Ok (0, 0, 1, 0)
  else Raise ValueError.

Definition from_quat (q : Z * Z * Z * Z) : result (Z * Z * Z * Z) :=
  let '(x, y, z, w) := q in
  if bool_decide (x * x + y * y + z * z + w * w = 1) then Ok q else Raise ValueError.

Definition as_matrix (q : Z * Z * Z * Z) : list (list Z) :=
  let '(x, y, z, w) := q in rows (to_R (w, x, y, z)).

Definition lib : NumLib := {|
  float := Z;
  float_of_str s := Z.of_int <$> NilZero.int_of_string s;
  str_of_float := str_int;
  np_linalg_inv := inv;
  Rotation := Z * Z * Z * Z;
  R_from_matrix := from_matrix;
  R_as_quat q := q;
  R_from_quat := from_quat;
  R_as_matrix := as_matrix;
  q_to_R := to_R
|}.

End IntLib.

(** ** Notions used in the statements, and concrete worlds to run the functions on *)

(** The directory part that [os.path.join] puts before a relative name. *)
Definition dir_prefix (a : string) : string :=
  if bool_decide (a = "") then ""
  else if ends_with_slash a then a else a +:+ "/".

(** The frame that the [c]-th successful [read()] returns. *)
Definition frame_at (frames : list image) (c : nat) : image := default [] (frames !! c).

(** Storing source frame [c] under its name in the output folder. *)
Definition put_frame (folder : string) (frames : list image)
    (m : gmap string content) (c : nat) : gmap string content :=
  <[os_path_join folder (frame_name c) := Png (frame_at frames c)]> m.

(** The frame numbers below [n] that the loop selects for interval [k]. *)
Definition sampled (k : Z) (n : nat) : list nat :=
  filter (λ c, Z.of_nat c mod k = 0) (seq 0 n).

(** What the call does about the output folder before it opens the video. *)
Definition folder_exists (w : world) (folder : string) : bool :=
  bool_decide (folder ∈ dirs w) || bool_decide (is_Some (files w !! folder)).

Definition folder_message (w : world) (folder : string) (verbose : bool) : list string :=
  if verbose
  then [if folder_exists w folder then "Output folder " +:+ folder +:+ " exists"
        else "Creating output folder " +:+ folder]
  else [].

Definition folder_dirs (w : world) (folder : string) : gset string :=
  if folder_exists w folder then dirs w
  else {[folder]} ∪ list_to_set (ancestors folder) ∪ dirs w.

Definition joined (l : list string) : string := foldr String.app "" l.

Definition sparse_folder (orig_dir : string) : string :=
  os_path_join (os_path_join orig_dir "sparse") "0".

(** The world after the two preparation steps of the call: the sparse folder
    exists and the notebook checkpoints below the images folder are gone. *)
Definition cleaned (orig_dir : string) (w : world) : world :=
  (rm_rf (os_path_join (os_path_join orig_dir "images") ".ipynb_checkpoints")
     (os_makedirs (sparse_folder orig_dir) true w).2).2.

Definition text_at (m : gmap string content) (f : string) : string :=
  match m !! f with Some (Text t) => t | _ => "" end.

(** A world with a five-frame video, to run the function on. *)
Definition clip : video := MkVideo "30.0" 4 2 [[1%N]; [2%N]; [3%N]; [4%N]; [5%N]].
Definition studio : world := MkWorld ∅ {[ "v.mp4" := Video clip ]} [].

(** A sparse model whose images list names image 2 before image 1. *)
Definition model : world :=
  MkWorld {[ "m" ]}
    {[ "m/images.txt" := Text "# two images
2 0 1 0 0 -1 2 3 2 b.jpg

1 1 0 0 0 -5 -6 -7 1 a.jpg
10 20 7 30 40 -1
" ]} [].

Definition model_images : gmap Z (@Image IntLib.lib) :=
  {[ 1 := @MkImage IntLib.lib 1 (1, 0, 0, 0) (-5, -6, -7) 1 "a.jpg"
            [(10, 20, 7); (30, 40, -1)];
     2 := @MkImage IntLib.lib 2 (0, 1, 0, 0) (-1, 2, 3) 2 "b.jpg" [] ]}.

(** A scan in the MobileBrick layout: the intrinsic files bear the names of
    the pose files. *)
Definition scan : world :=
  MkWorld {[ "scan"; "scan/pose"; "scan/images"; "scan/images/.ipynb_checkpoints";
             "scan/intrinsic" ]}
    {[ "scan/pose/0.txt" := Text "1 0 0 5
0 1 0 6
0 0 1 7
0 0 0 1
";
       "scan/pose/1.txt" := Text "1 0 0 1
0 -1 0 2
0 0 -1 3
0 0 0 1
";
       "scan/images/0.jpg" := Png [];
       "scan/images/1.jpg" := Png [];
       "scan/images/.ipynb_checkpoints/0.jpg" := Png [];
       "scan/intrinsic/0.txt" := Text "100 0 50
0 101 51
0 0 1
";
       "scan/intrinsic/1.txt" := Text "200 0 60
0 201 61
0 0 1
" ]} [].

(** One aligned triple whose intrinsic file is not named like its pose file. *)
Definition misnamed_scan : world :=
  MkWorld {[ "scan"; "scan/pose"; "scan/images"; "scan/intrinsic" ]}
    {[ "scan/pose/a.txt" := Text "1 0 0 5
0 1 0 6
0 0 1 7
0 0 0 1
";
       "scan/images/a.png" := Png [];
       "scan/intrinsic/b.txt" := Text "100 0 50
0 101 51
0 0 1
" ]} [].

(** The world in which the frame loop of [extract_frames] starts. *)
Definition loop_start (w : world) (folder : string) (verbose : bool) (v : video) : world :=
  MkWorld (folder_dirs w folder) (files w)
    (stdout w ++ folder_message w folder verbose ++
     if verbose
     then ["Video resolution: " +:+ str_int (v_width v) +:+ "x" +:+
           str_int (v_height v) +:+ ", FPS: " +:+ v_fps v;
           "Extracting frames..."]
     else []).

(** The video that [cv2.VideoCapture] opens at a path, if any. *)
Definition video_at (w : world) (p : string) : option video :=
  match files w !! p with Some (Video v) => Some v | _ => None end.

(** Two worlds that differ at most in the files selected by [S]: the other
    files and the console are the same. *)
Definition same_but (S : string → Prop) (w w' : world) : Prop :=
  (∀ p, ¬ S p → files w' !! p = files w !! p) ∧ stdout w' = stdout w.

(** A program that keeps a relation between the world it starts in and the
    world it ends in, whether it returns or raises. *)
Definition keeps {A} (R : world → world → Prop) (c : M A) : Prop := ∀ w, R w (c w).2.

(** The paths that [create_mobile_brick_colmap_files] may touch: its three
    output files, and the notebook checkpoints it removes. *)
Definition synthesizer_touches (orig_dir : string) (p : string) : Prop :=
  p = os_path_join (sparse_folder orig_dir) "images.txt" ∨
  p = os_path_join (sparse_folder orig_dir) "cameras.txt" ∨
  p = os_path_join (sparse_folder orig_dir) "points3D.txt" ∨
  p = os_path_join (os_path_join orig_dir "images") ".ipynb_checkpoints" ∨
  below (os_path_join (os_path_join orig_dir "images") ".ipynb_checkpoints") p.

(** A path that a shell hands on to a command as one operand, unchanged:
    letters, digits and the characters [/], [.], [_] and [-] only, and no [-]
    in front. *)
Definition shell_char (a : ascii) : bool :=
  let n := nat_of_ascii a in
  (48 <=? n)%nat && (n <=? 57)%nat || (65 <=? n)%nat && (n <=? 90)%nat ||
  (97 <=? n)%nat && (n <=? 122)%nat ||
  bool_decide (a ∈ ["/"; "."; "_"; "-"]%char).

Fixpoint shell_chars (s : string) : bool :=
  match s with
  | "" => true
  | String a s' => shell_char a && shell_chars s'
  end.

Definition shell_word (s : string) : bool :=
  match s with
  | String "-"%char _ => false
  | _ => shell_chars s
  end.

(** A video that opens and has no frame to read, and a world that holds it. *)
Definition blank : video := MkVideo "25.0" 640 480 [].
Definition idle : world := MkWorld ∅ {[ "e.mp4" := Video blank ]} [].

(** A scan folder with its three input folders and no file in them. *)
Definition empty_scan : world :=
  MkWorld {[ "scan"; "scan/pose"; "scan/images"; "scan/intrinsic" ]} ∅ [].

(** Neither at the path [p] nor on the way to it there is a regular file, so
    that [os.makedirs] creates the folder [p] when it is not there. *)
Definition clear_way (w : world) (p : string) : bool :=
  negb (isfile w p) && negb (file_above w p).

(** The output folder is there, or [os.makedirs] can create it. *)
Definition folder_ready (w : world) (folder : string) : Prop :=
  isdir w folder = true ∨ (folder ≠ "" ∧ clear_way w folder = true).

(** A token of a line: a non-empty text without white space. *)
Fixpoint no_space (s : string) : bool :=
  match s with
  | "" => true
  | String a s' => negb (Ascii.is_space a) && no_space s'
  end.

Definition token (s : string) : Prop := s ≠ "" ∧ no_space s = true.

(** A text that holds no line feed. *)
Fixpoint one_line (s : string) : bool :=
  match s with
  | "" => true
  | String a s' => negb (bool_decide (a = LF)) && one_line s'
  end.

(** The image record that the reader makes of the metadata line that the
    synthesizer writes at index [i] for the quaternion [q] (scalar last, as
    [matrix_to_quaternion] returns it), the translation [t] and a file name. *)
Definition written_image `{NL : NumLib} (i : nat) (q : quat) (t : vec3) (name : string)
    : Image :=
  let '(qx, qy, qz, qw) := q in
  MkImage (Z.of_nat (i + 1)) (qw, qx, qy, qz) t (Z.of_nat (i + 1)) name [].

(** Entering the records of a list into a dictionary, first to last. *)
Definition enter `{NL : NumLib} (images : gmap Z Image) (ims : list Image) : gmap Z Image :=
  foldl (λ m im, <[img_id im := im]> m) images ims.

(** * Properties *)

(** ** Text *)

Lemma app_cons (a : ascii) (s t : string) : String a s +:+ t = String a (s +:+ t).
Proof. reflexivity. Qed.

Lemma app_assoc_str (s t u : string) : (s +:+ t) +:+ u = s +:+ t +:+ u.
Proof. induction s as [|a s IH]; [done|]. by rewrite !app_cons, IH. Qed.

Lemma app_nil_r_str (s : string) : s +:+ "" = s.
Proof. induction s as [|a s IH]; [done|]. by rewrite app_cons, IH. Qed.

Lemma length_app_str (s t : string) :
  String.length (s +:+ t) = (String.length s + String.length t)%nat.
Proof. induction s as [|a s IH]; [done|]. rewrite app_cons. simpl. by rewrite IH. Qed.

Lemma app_inj_r (t s1 s2 : string) : s1 +:+ t = s2 +:+ t → s1 = s2.
Proof.
  intros H.
  assert (Hlen : String.length s1 = String.length s2).
  { apply (f_equal String.length) in H. rewrite !length_app_str in H. lia. }
  revert s2 H Hlen. induction s1 as [|a s1 IH]; intros [|b s2] H Hlen; try done.
  rewrite !app_cons in H. injection H as -> H. f_equal. apply IH; [done|].
  simpl in Hlen. lia.
Qed.

Lemma uint_of_zeros (z : nat) (d : uint) :
  NilEmpty.uint_of_string (zeros z +:+ NilEmpty.string_of_uint d) = Some (Nat.iter z D0 d).
Proof.
  induction z as [|z IH]; [apply NilEmpty.usu|].
  simpl zeros. rewrite app_cons. simpl. by rewrite IH.
Qed.

Lemma of_uint_leading_zeros (z : nat) (d : uint) :
  Nat.of_uint (Nat.iter z D0 d) = Nat.of_uint d.
Proof. induction z as [|z IH]; [done|]. simpl Nat.iter. by rewrite <- IH. Qed.

Lemma format_05_inj (a b : nat) : format_05 a = format_05 b → a = b.
Proof.
  unfold format_05, str_nat. intros H.
  apply (f_equal NilEmpty.uint_of_string) in H. rewrite !uint_of_zeros in H.
  injection H as H. apply (f_equal Nat.of_uint) in H.
  by rewrite !of_uint_leading_zeros, !Unsigned.of_to in H.
Qed.

Lemma length_zeros (n : nat) : String.length (zeros n) = n.
Proof. induction n as [|n IH]; [done|]. simpl. by rewrite IH. Qed.

(** Five characters, or as many as the number has digits when it has more. *)
Lemma format_05_length (n : nat) :
  String.length (format_05 n) = (5 `max` String.length (str_nat n))%nat.
Proof. unfold format_05. rewrite length_app_str, length_zeros. lia. Qed.

Lemma frame_name_inj (a b : nat) : frame_name a = frame_name b → a = b.
Proof.
  unfold frame_name. intros H. apply (inj (String.app "IMG_")) in H.
  apply app_inj_r in H. by apply format_05_inj.
Qed.

Lemma os_path_join_rel (a b : string) :
  is_abs b = false → os_path_join a b = dir_prefix a +:+ b.
Proof.
  intros Hb. unfold os_path_join, dir_prefix. rewrite Hb.
  case_bool_decide; [done|]. destruct (ends_with_slash a); [done|].
  by rewrite app_assoc_str.
Qed.

Lemma frame_path_inj (folder : string) (a b : nat) :
  os_path_join folder (frame_name a) = os_path_join folder (frame_name b) → a = b.
Proof.
  rewrite !os_path_join_rel by done. intros H.
  apply (inj (String.app _)) in H. by apply frame_name_inj.
Qed.

(** ** Paths *)

Lemma has_slash_app (s t : string) : has_slash (s +:+ t) = has_slash s || has_slash t.
Proof.
  induction s as [|a s IH]; [done|]. rewrite app_cons. cbn [has_slash].
  by rewrite IH, orb_assoc.
Qed.

Lemma no_slash_not_abs (n : string) : has_slash n = false → is_abs n = false.
Proof.
  destruct n as [|a n]; [done|]. cbn [has_slash]. intros [Ha _]%orb_false_iff.
  apply bool_decide_eq_false in Ha.
  destruct a as [[] [] [] [] [] [] [] []]; done.
Qed.

Lemma ancestors_app (x s : string) :
  ancestors (x +:+ s) = (ancestors x ++ (String.app x <$> ancestors s))%list.
Proof.
  induction x as [|a x IH].
  - cbn [ancestors app]. change (String.app "") with (@id string). by rewrite list_fmap_id.
  - rewrite app_cons. cbn [ancestors]. rewrite IH, fmap_app, <- list_fmap_compose.
    by rewrite app_assoc.
Qed.

Lemma ancestors_no_slash (n : string) : has_slash n = false → ancestors n = [].
Proof.
  induction n as [|a n IH]; [done|]. cbn [has_slash ancestors].
  intros [Ha Hn]%orb_false_iff. rewrite Ha, IH by done. done.
Qed.

Lemma ancestors_under (x n : string) :
  has_slash n = false → ancestors (x +:+ "/" +:+ n) = (ancestors x ++ [x])%list.
Proof.
  intros Hn. rewrite ancestors_app. f_equal.
  change ("/" +:+ n) with (String "/" n). cbn [ancestors].
  rewrite bool_decide_true by done. rewrite ancestors_no_slash by done.
  cbn. by rewrite app_nil_r_str.
Qed.

Lemma parent_under (x n : string) : has_slash n = false → parent (x +:+ "/" +:+ n) = x.
Proof. intros Hn. unfold parent. by rewrite ancestors_under, last_snoc. Qed.

Lemma ancestors_shorter (a s : string) :
  a ∈ ancestors s → (String.length a < String.length s)%nat.
Proof.
  revert a. induction s as [|b s IH]; intros a Ha; [by apply elem_of_nil in Ha|].
  cbn [ancestors] in Ha. apply elem_of_app in Ha as [Ha|Ha].
  - case_bool_decide; [|by apply elem_of_nil in Ha].
    apply list_elem_of_singleton in Ha as ->. simpl. lia.
  - apply list_elem_of_fmap in Ha as (a' & -> & Ha'). apply IH in Ha'. simpl. lia.
Qed.

Lemma plain_facts (p : string) :
  plain p = true → p ≠ "" ∧ is_abs p = false ∧ ends_with_slash p = false.
Proof.
  unfold plain. intros [[[H1 H2]%andb_true_iff H3]%andb_true_iff _]%andb_true_iff.
  apply negb_true_iff in H1, H2, H3. by apply bool_decide_eq_false in H1.
Qed.

Lemma plain_join (d n : string) :
  plain d = true → is_abs n = false → os_path_join d n = d +:+ "/" +:+ n.
Proof.
  intros (Hd & _ & Hs)%plain_facts Hn. unfold os_path_join.
  by rewrite Hn, bool_decide_false, Hs.
Qed.

Lemma join_under (d n : string) :
  plain d = true → has_slash n = false →
  os_path_join d n = d +:+ "/" +:+ n ∧ os_path_join d n ≠ "" ∧
  parent (os_path_join d n) = d ∧ ancestors (os_path_join d n) = (ancestors d ++ [d])%list ∧
  (String.length d < String.length (os_path_join d n))%nat.
Proof.
  intros Hd Hn. rewrite plain_join by auto using no_slash_not_abs.
  split; [done|]. split.
  { pose proof (plain_facts d Hd) as (Hne & _). by destruct d. }
  split; [by apply parent_under|]. split; [by apply ancestors_under|].
  rewrite length_app_str. simpl. lia.
Qed.

Lemma has_slash_zeros (n : nat) : has_slash (zeros n) = false.
Proof. induction n as [|n IH]; [done|]. simpl. by rewrite IH. Qed.

Lemma has_slash_digits (d : uint) : has_slash (NilEmpty.string_of_uint d) = false.
Proof. induction d; cbn; done. Qed.

Lemma has_slash_frame_name (c : nat) : has_slash (frame_name c) = false.
Proof.
  unfold frame_name, format_05, str_nat.
  by rewrite !has_slash_app, has_slash_zeros, has_slash_digits.
Qed.

(** ** extract_frames *)

Lemma world_eta (w : world) : MkWorld (dirs w) (files w) (stdout w) = w.
Proof. by destruct w. Qed.

Lemma frame_path_facts (folder : string) (c : nat) :
  plain folder = true →
  os_path_join folder (frame_name c) ≠ "" ∧
  parent (os_path_join folder (frame_name c)) = folder ∧
  (String.length folder < String.length (os_path_join folder (frame_name c)))%nat.
Proof.
  intros Hf.
  destruct (join_under folder (frame_name c) Hf (has_slash_frame_name c))
    as (_ & ? & ? & _ & ?).
  done.
Qed.

Lemma cv2_imwrite_run (p : string) (im : image) (w : world) :
  p ≠ "" → p ∉ dirs w → parent p ∈ dirs w →
  cv2_imwrite p im w = (Ok tt, MkWorld (dirs w) (<[p := Png im]> (files w)) (stdout w)).
Proof.
  intros Hp Hd Hpar. unfold cv2_imwrite, parent_is_dir, isdir.
  rewrite (bool_decide_false (p = "")) by done.
  rewrite (bool_decide_false (p ∈ dirs w)) by done.
  rewrite (bool_decide_true (parent p ∈ dirs w)) by done.
  by rewrite orb_true_r.
Qed.

Lemma frame_loop_run (folder : string) (k : Z) (frames : list image) :
  k ≠ 0 → plain folder = true →
  ∀ (pending done : list image) w, frames = (done ++ pending)%list →
  folder ∈ dirs w →
  (∀ c, c ∈ sampled k (length frames) → os_path_join folder (frame_name c) ∉ dirs w) →
  frame_loop folder k (length done) pending w =
  (Ok tt, MkWorld (dirs w)
            (foldl (put_frame folder frames) (files w)
               (filter (λ c, Z.of_nat c mod k = 0) (seq (length done) (length pending))))
            (stdout w)).
Proof.
  intros Hk Hplain. induction pending as [|im rest IH]; intros done w Hfr Hdir Hfree.
  - simpl. by rewrite world_eta.
  - simpl frame_loop. unfold bind at 1, lift, py_mod.
    destruct (Z.eqb_spec k 0) as [|_]; [done|].
    assert (Hnext : frames = ((done ++ [im]) ++ rest)%list) by by rewrite <- app_assoc.
    specialize (IH (done ++ [im])%list). rewrite length_app, Nat.add_1_r in IH.
    simpl length. simpl seq. rewrite filter_cons.
    destruct (Z.eqb_spec (Z.of_nat (length done) mod k) 0) as [Hm|Hm].
    + rewrite decide_True by done. simpl foldl.
      destruct (frame_path_facts folder (length done) Hplain) as (Hne & Hpar & _).
      unfold bind, when. rewrite cv2_imwrite_run; [|done| |by rewrite Hpar].
      2:{ apply Hfree, list_elem_of_filter. split; [done|].
          apply elem_of_seq. rewrite Hfr, length_app. simpl. lia. }
      rewrite (IH _ Hnext) by done. cbn [dirs files stdout].
      assert (Him : frame_at frames (length done) = im).
      { unfold frame_at. rewrite Hfr, lookup_app_r by done. by rewrite Nat.sub_diag. }
      replace (put_frame folder frames (files w) (length done))
        with (<[os_path_join folder (frame_name (length done)) := Png im]> (files w));
        [done|].
      unfold put_frame. by rewrite Him.
    + rewrite decide_False by done.
      unfold bind, when, ret. by rewrite (IH _ Hnext).
Qed.

Lemma frame_loop_zero (folder : string) (count : nat) (im : image) (rest : list image)
    (w : world) :
  frame_loop folder 0 count (im :: rest) w = (Raise ZeroDivisionError, w).
Proof. reflexivity. Qed.

Lemma sampled_length (k : Z) (n : nat) :
  1 ≤ k → Z.of_nat (length (sampled k n)) = (Z.of_nat n + k - 1) / k.
Proof.
  intros Hk. unfold sampled. induction n as [|n IH].
  - simpl. symmetry. apply Z.div_small. lia.
  - rewrite seq_S, filter_app, length_app, Nat2Z.inj_add, IH.
    change (0 + n)%nat with n. rewrite filter_cons, filter_nil, Nat2Z.inj_succ.
    pose proof (Z.div_mod (Z.of_nat n) k ltac:(lia)) as Hn.
    pose proof (Z.mod_pos_bound (Z.of_nat n) k ltac:(lia)) as Hr.
    case_decide as Hm; simpl length;
      set (q := Z.of_nat n / k) in *; set (r := Z.of_nat n mod k) in *;
      clearbody q r.
    + rewrite <- (Z.div_unique_pos (Z.of_nat n + k - 1) k q (k - 1)) by lia.
      rewrite <- (Z.div_unique_pos (Z.succ (Z.of_nat n) + k - 1) k (q + 1) 0); lia.
    + rewrite <- (Z.div_unique_pos (Z.of_nat n + k - 1) k (q + 1) (r - 1)) by lia.
      rewrite <- (Z.div_unique_pos (Z.succ (Z.of_nat n) + k - 1) k (q + 1) r); lia.
Qed.

Lemma sampled_NoDup (k : Z) (n : nat) : NoDup (sampled k n).
Proof. apply NoDup_filter, NoDup_seq. Qed.

(** *** The output folder *)

Lemma ready_of_clear (w : world) (folder : string) :
  plain folder = true → clear_way w folder = true → folder_ready w folder.
Proof. intros (Hne & _)%plain_facts Hc. by right. Qed.

Lemma clear_way_facts (w : world) (p : string) :
  clear_way w p = true → isfile w p = false ∧ file_above w p = false.
Proof.
  unfold clear_way. intros [H1 H2]%andb_true_iff.
  by apply negb_true_iff in H1, H2.
Qed.

Lemma ready_cases (w : world) (folder : string) :
  folder_ready w folder →
  isdir w folder = true ∧ folder_exists w folder = true ∨
  isdir w folder = false ∧ folder_exists w folder = false ∧ folder ≠ "" ∧
    isfile w folder = false ∧ file_above w folder = false.
Proof.
  unfold folder_exists. fold (isdir w folder) (isfile w folder).
  intros Hr. destruct (isdir w folder) eqn:Hd; [by left|].
  destruct Hr as [|[Hne (Hf & Ha)%clear_way_facts]]; [congruence|].
  right. by rewrite Hf.
Qed.

Lemma prepare_folder_run (w : world) (folder : string) (verbose : bool) :
  folder_ready w folder →
  (if negb (folder_exists w folder)
   then when verbose (print ("Creating output folder " +:+ folder)) >>
        os_makedirs folder false
   else when verbose (print ("Output folder " +:+ folder +:+ " exists"))) w =
  (Ok tt, MkWorld (folder_dirs w folder) (files w)
            (stdout w ++ folder_message w folder verbose)).
Proof.
  intros Hr. unfold folder_dirs, folder_message.
  destruct (ready_cases w folder Hr) as [[Hd ->]|(Hd & -> & Hne & Hf & Ha)].
  - destruct verbose; simpl; unfold when, print, ret; simpl;
      rewrite ?app_nil_r, ?world_eta; done.
  - unfold isdir, isfile, file_above, isfile in *.
    destruct verbose; simpl; unfold bind, when, print, ret, os_makedirs,
      isdir, isfile, file_above, isfile; simpl;
      rewrite (bool_decide_false (folder = "")), Hd, Hf, Ha, ?app_nil_r by done; done.
Qed.

Lemma ready_in_dirs (w : world) (folder : string) :
  folder_ready w folder → folder ∈ folder_dirs w folder.
Proof.
  intros Hr. unfold folder_dirs.
  destruct (ready_cases w folder Hr) as [[Hd ->]|(Hd & -> & _)].
  - by apply bool_decide_eq_true in Hd.
  - set_solver.
Qed.

Lemma frame_paths_free (w : world) (folder : string) (c : nat) :
  plain folder = true →
  os_path_join folder (frame_name c) ∉ dirs w →
  os_path_join folder (frame_name c) ∉ folder_dirs w folder.
Proof.
  intros Hplain Hfree. unfold folder_dirs.
  destruct (folder_exists w folder); [done|].
  destruct (frame_path_facts folder c Hplain) as (_ & _ & Hlen).
  rewrite !elem_of_union, elem_of_singleton, elem_of_list_to_set.
  intros [[Heq|Hanc]|Hd]; [|apply ancestors_shorter in Hanc|done].
  - rewrite Heq in Hlen. lia.
  - lia.
Qed.

(** *** The call, up to the loop and through it *)

Lemma extract_frames_at_loop (video_path output_folder : string) (k : Z) (verbose : bool)
    (w : world) (v : video) :
  folder_ready w output_folder →
  files w !! video_path = Some (Video v) →
  extract_frames video_path output_folder k verbose w =
  (frame_loop output_folder k 0 (v_frames v) >>
   when verbose (print "Done extracting frames")) (loop_start w output_folder verbose v).
Proof.
  intros Hr Hv. unfold extract_frames, bind at 1, os_path_exists.
  fold (folder_exists w output_folder). unfold bind at 1.
  rewrite prepare_folder_run by done. unfold bind at 1, cv2_VideoCapture. cbn [files].
  rewrite Hv. unfold bind at 1 2, loop_start.
  destruct verbose; unfold when, print, ret; cbn [dirs files stdout];
    [|by rewrite !app_nil_r].
  repeat rewrite <- app_assoc. done.
Qed.

Lemma extract_frames_unopened_run (video_path output_folder : string) (k : Z)
    (verbose : bool) (w : world) :
  folder_ready w output_folder →
  video_at w video_path = None →
  extract_frames video_path output_folder k verbose w =
  (Ok tt, MkWorld (folder_dirs w output_folder) (files w)
            (stdout w ++ folder_message w output_folder verbose ++
             ["Error: Could not open video."])%list).
Proof.
  unfold video_at. intros Hr Hv.
  unfold extract_frames, bind at 1, os_path_exists.
  fold (folder_exists w output_folder). unfold bind at 1.
  rewrite prepare_folder_run by done. unfold bind at 1, cv2_VideoCapture. cbn [files].
  destruct (files w !! video_path) as [[| |]|]; simplify_eq;
    unfold print; cbn [dirs files stdout]; f_equal; f_equal; symmetry; apply app_assoc.
Qed.

Lemma video_at_Some (w : world) (p : string) (v : video) :
  video_at w p = Some v ↔ files w !! p = Some (Video v).
Proof.
  unfold video_at. destruct (files w !! p) as [[| |]|]; split; intros; simplify_eq; done.
Qed.

Lemma extract_frames_opened (video_path output_folder : string) (k : Z) (verbose : bool)
    (w : world) (v : video) :
  folder_ready w output_folder → plain output_folder = true →
  files w !! video_path = Some (Video v) → k ≠ 0 →
  (∀ c, c ∈ sampled k (length (v_frames v)) →
     os_path_join output_folder (frame_name c) ∉ dirs w) →
  ∃ out, extract_frames video_path output_folder k verbose w =
           (Ok tt, MkWorld (folder_dirs w output_folder)
                     (foldl (put_frame output_folder (v_frames v)) (files w)
                        (sampled k (length (v_frames v))))
                     out).
Proof.
  intros Hr Hplain Hv Hk Hfree.
  rewrite (extract_frames_at_loop _ _ _ _ _ v Hr Hv).
  pose proof (frame_loop_run output_folder k (v_frames v) Hk Hplain (v_frames v) []
                (loop_start w output_folder verbose v) eq_refl) as Hloop.
  cbn [length loop_start dirs files stdout] in Hloop. unfold bind.
  rewrite Hloop.
  - fold (sampled k (length (v_frames v))). destruct verbose; simpl; eauto.
  - by apply ready_in_dirs.
  - intros c Hc. apply frame_paths_free; auto.
Qed.

Lemma extract_frames_zero (video_path output_folder : string) (verbose : bool)
    (w : world) (v : video) :
  folder_ready w output_folder →
  files w !! video_path = Some (Video v) → v_frames v ≠ [] →
  ∃ w', extract_frames video_path output_folder 0 verbose w = (Raise ZeroDivisionError, w') ∧
    files w' = files w.
Proof.
  intros Hr Hv Hne. rewrite (extract_frames_at_loop _ _ _ _ _ v Hr Hv).
  destruct (v_frames v) as [|im rest]; [done|].
  unfold bind. rewrite frame_loop_zero. eauto.
Qed.

Lemma foldl_put_other (folder : string) (frames : list image) (p : string) (l : list nat) :
  ∀ m, (∀ c, c ∈ l → os_path_join folder (frame_name c) ≠ p) →
  foldl (put_frame folder frames) m l !! p = m !! p.
Proof.
  induction l as [|x l IH]; intros m Hp; [done|]. simpl.
  rewrite IH by (intros c Hc; apply Hp; by right).
  unfold put_frame. apply lookup_insert_ne, Hp. by left.
Qed.

Lemma foldl_put_lookup (folder : string) (frames : list image) (c : nat) (l : list nat) :
  ∀ m, c ∈ l →
  foldl (put_frame folder frames) m l !! os_path_join folder (frame_name c)
  = Some (Png (frame_at frames c)).
Proof.
  induction l as [|x l IH]; intros m Hc; [by apply elem_of_nil in Hc|]. simpl.
  destruct (decide (c ∈ l)) as [Hin|Hout]; [by apply IH|].
  apply elem_of_cons in Hc as [->|Hc]; [|done].
  rewrite foldl_put_other.
  - unfold put_frame. apply lookup_insert_eq.
  - intros c' Hc' Heq. apply frame_path_inj in Heq. by subst.
Qed.

Lemma sampled_spec (k : Z) (n c : nat) :
  k ≠ 0 → c ∈ sampled k n ↔ (c < n)%nat ∧ (k | Z.of_nat c).
Proof.
  intros Hk. unfold sampled. rewrite list_elem_of_filter, elem_of_seq.
  rewrite (Z.mod_divide _ _ Hk). split; intros []; split; auto with lia.
Qed.

(** C2: in a file system where the output folder is there or can be created
    (its path is in normal form and no regular file lies at it or on the way
    to it) and no frame file name is taken by a folder or by the video itself:
    for a video that opens with N readable frames and an interval k >= 1,
    [extract_frames] returns normally and stores exactly one PNG for each
    source frame number c < N that is a multiple of k, under the name
    IMG_<c padded to five digits>.png in the output folder, holding frame c;
    these names are pairwise distinct, their number L is ceil(N/k), that is
    (L - 1) * k < N <= L * k, and no other file changes. *)
Theorem extract_frames_samples (video_path output_folder : string) (k : Z)
    (verbose : bool) (w : world) (v : video) :
  tidy w = true → plain output_folder = true → clear_way w output_folder = true →
  files w !! video_path = Some (Video v) → 1 ≤ k →
  let frames := v_frames v in
  let written := sampled k (length frames) in
  let path c := os_path_join output_folder ("IMG_" +:+ format_05 c +:+ ".png") in
  let L := Z.of_nat (length written) in
  (∀ c, c ∈ written → (path c ∉ dirs w) ∧ path c ≠ video_path) →
  ∃ w', extract_frames video_path output_folder k verbose w = (Ok tt, w') ∧
    (∀ c, c ∈ written ↔ (c < length frames)%nat ∧ (k | Z.of_nat c)) ∧
    (∀ c, c ∈ written → files w' !! path c = Some (Png (frame_at frames c))) ∧
    (∀ p, (∀ c, c ∈ written → path c ≠ p) → files w' !! p = files w !! p) ∧
    NoDup (path <$> written) ∧
    (L - 1) * k < Z.of_nat (length frames) ≤ L * k.
Proof.
  intros _ Hplain Hclear Hv Hk frames written path L Hfree.
  destruct (extract_frames_opened video_path output_folder k verbose w v) as [out Hrun];
    [by apply ready_of_clear|done|done|lia|intros c Hc; by apply Hfree|].
  eexists. split; [exact Hrun|]. cbn [files].
  split; [intros c; apply sampled_spec; lia|].
  split; [intros c Hc; by apply foldl_put_lookup|].
  split; [intros p Hp; by apply foldl_put_other|].
  split.
  - apply NoDup_fmap_2; [|apply sampled_NoDup].
    intros a b Hab. by apply frame_path_inj in Hab.
  - subst L written. rewrite sampled_length by done.
    pose proof (Z.div_mod (Z.of_nat (length frames) + k - 1) k ltac:(lia)) as Hd.
    pose proof (Z.mod_pos_bound (Z.of_nat (length frames) + k - 1) k ltac:(lia)) as Hr.
    nia.
Qed.

Lemma extract_frames_samples_witness :
  ∃ w', extract_frames "v.mp4" "out" 2 true studio = (Ok tt, w') ∧
    files w' !! "out/IMG_00004.png" = Some (Png [5%N]).
Proof.
  destruct (extract_frames_samples "v.mp4" "out" 2 true studio clip)
    as (w' & Hrun & Hsel & Hget & _);
    [reflexivity | reflexivity | reflexivity | reflexivity | lia
    | intros c _; split; [apply not_elem_of_empty | discriminate] |].
  exists w'. split; [exact Hrun|].
  apply (Hget 4%nat), Hsel. split; [simpl; lia | by exists 2].
Defined.

(** C6, as the code has it: [extract_frames] does not check its interval.  In
    a file system where the output folder is there or can be created and no
    frame file name is taken by a folder or by the video itself: on a video
    that opens with at least one readable frame, interval 0 makes the first
    loop test [count % 0] raise ZeroDivisionError before any file is written;
    a negative interval runs the loop and stores the frames whose number is a
    multiple of it; an interval >= 1 never divides by zero. *)
Theorem extract_frames_interval_unchecked (video_path output_folder : string)
    (verbose : bool) (w : world) (v : video) :
  tidy w = true → plain output_folder = true → clear_way w output_folder = true →
  files w !! video_path = Some (Video v) → v_frames v ≠ [] →
  (∀ c, (c < length (v_frames v))%nat →
     (os_path_join output_folder (frame_name c) ∉ dirs w) ∧
     os_path_join output_folder (frame_name c) ≠ video_path) →
  (∃ w', extract_frames video_path output_folder 0 verbose w
           = (Raise ZeroDivisionError, w') ∧ files w' = files w) ∧
  (∀ k, k < 0 →
     ∃ w', extract_frames video_path output_folder k verbose w = (Ok tt, w') ∧
       ∀ c, (c < length (v_frames v))%nat → (k | Z.of_nat c) →
         files w' !! os_path_join output_folder (frame_name c)
         = Some (Png (frame_at (v_frames v) c))) ∧
  (∀ k, 1 ≤ k →
     ∃ w', extract_frames video_path output_folder k verbose w = (Ok tt, w')).
Proof.
  intros _ Hplain Hclear Hv Hne Hfree.
  pose proof (ready_of_clear w output_folder Hplain Hclear) as Hr.
  assert (Hfree' : ∀ k c, c ∈ sampled k (length (v_frames v)) →
            os_path_join output_folder (frame_name c) ∉ dirs w).
  { intros k c [_ Hc%elem_of_seq]%list_elem_of_filter. apply Hfree. lia. }
  split; [by apply (extract_frames_zero _ _ _ _ v)|]. split.
  - intros k Hk.
    destruct (extract_frames_opened video_path output_folder k verbose w v)
      as [out Hrun]; [done|done|done|lia|apply Hfree'|].
    eexists. split; [exact Hrun|]. intros c Hc Hdiv. cbn [files].
    apply foldl_put_lookup, sampled_spec; [lia|done].
  - intros k Hk.
    destruct (extract_frames_opened video_path output_folder k verbose w v)
      as [out Hrun]; [done|done|done|lia|apply Hfree'|].
    eauto.
Qed.

Lemma extract_frames_interval_unchecked_witness :
  ∃ w', extract_frames "v.mp4" "out" 0 true studio = (Raise ZeroDivisionError, w') ∧
    files w' = files studio.
Proof.
  apply (extract_frames_interval_unchecked "v.mp4" "out" true studio clip);
    [reflexivity | reflexivity | reflexivity | reflexivity | discriminate
    | intros c _; split; [apply not_elem_of_empty | discriminate]].
Defined.

(** C6 fails as stated: with interval 0 the call is neither rejected nor
    defaulted, it reaches the loop and evaluates [0 % 0]; with interval -2 it
    reaches the loop and writes frames. *)
Lemma extract_frames_interval_not_guarded :
  (extract_frames "v.mp4" "out" 0 false studio).1 = Raise ZeroDivisionError ∧
  (extract_frames "v.mp4" "out" (-2) false studio).1 = Ok tt ∧
  files (extract_frames "v.mp4" "out" (-2) false studio).2 !! "out/IMG_00002.png"
  = Some (Png [3%N]).
Proof. by vm_compute. Qed.

(** C7: in a file system where the output folder is there or can be created:
    when the video cannot be opened, [extract_frames] returns normally, its
    last printed line is the failure message, and the files are exactly those
    from before the call: nothing is written.  (The output folder itself has
    been created by then if it did not exist.) *)
Theorem extract_frames_unopened (video_path output_folder : string) (interval : Z)
    (verbose : bool) (w : world) :
  tidy w = true → plain video_path = true →
  plain output_folder = true → clear_way w output_folder = true →
  (cv2_VideoCapture video_path w).1 = Ok None →
  ∃ w', extract_frames video_path output_folder interval verbose w = (Ok tt, w') ∧
    files w' = files w ∧
    stdout w' = (stdout w ++ folder_message w output_folder verbose ++
                 ["Error: Could not open video."])%list ∧
    dirs w' = folder_dirs w output_folder.
Proof.
  intros _ _ Hplain Hclear Hv. unfold cv2_VideoCapture in Hv. cbn [fst] in Hv.
  rewrite extract_frames_unopened_run.
  - eexists. split; [reflexivity|]. done.
  - by apply ready_of_clear.
  - unfold video_at. destruct (files w !! video_path) as [[| |]|]; by simplify_eq.
Qed.

Lemma extract_frames_unopened_witness :
  ∃ w', extract_frames "missing.mp4" "out" 20 true studio = (Ok tt, w') ∧
    files w' = files studio ∧
    stdout w' = ["Creating output folder out"; "Error: Could not open video."].
Proof.
  destruct (extract_frames_unopened "missing.mp4" "out" 20 true studio)
    as (w' & Hrun & Hf & Hout & _); [reflexivity..|].
  exists w'. split; [exact Hrun|]. split; [exact Hf|]. exact Hout.
Defined.

(** ** poses_from_file *)

Section PoseReader.
Context `{NL : NumLib}.

#[local] Instance key_le_trans : Transitive key_le.
Proof. intros a b c. unfold key_le. lia. Qed.

#[local] Instance key_le_total : Total key_le.
Proof. intros a b. unfold key_le. lia. Qed.

Lemma sorted_items_perm (d : gmap Z Image) : sorted_items d ≡ₚ map_to_list d.
Proof. apply merge_sort_Permutation. Qed.

Lemma strictly_sorted (l : list (Z * Image)) :
  StronglySorted key_le l → NoDup l.*1 → StronglySorted key_lt l.
Proof.
  induction 1 as [|x l Hl IH Hx]; intros Hnd; [constructor|].
  rewrite fmap_cons in Hnd. apply NoDup_cons in Hnd as [Hnotin Hnd].
  constructor; [by apply IH|].
  rewrite Forall_forall in Hx |- *. intros y Hy.
  assert (x.1 ≠ y.1).
  { intros Heq. apply Hnotin. rewrite Heq. apply list_elem_of_fmap. eauto. }
  specialize (Hx y Hy). unfold key_le in Hx. unfold key_lt. lia.
Qed.

Lemma sorted_items_sorted (d : gmap Z Image) : StronglySorted key_lt (sorted_items d).
Proof.
  apply strictly_sorted; [apply StronglySorted_merge_sort; apply _|].
  rewrite sorted_items_perm. apply NoDup_fst_map_to_list.
Qed.

Lemma sorted_items_nil (d : gmap Z Image) : sorted_items d = [] ↔ d = ∅.
Proof.
  rewrite <- map_to_list_empty_iff. split; intros H.
  - apply Permutation_nil_r. rewrite <- H. symmetry. apply sorted_items_perm.
  - apply Permutation_nil_r. rewrite <- H. apply sorted_items_perm.
Qed.

Lemma stack_poses (items : list (Z * Image)) :
  zip_with cat_col (q_to_R <$> ((λ kv, qvec kv.2) <$> items)) ((λ kv, tvec kv.2) <$> items)
  = (λ kv, pose_of kv.2) <$> items.
Proof.
  induction items as [|kv items IH]; [done|].
  rewrite !fmap_cons. cbn [zip_with]. by rewrite IH.
Qed.

Lemma read_images_text_run (path : string) (w : world) :
  read_images_text path w =
  (match files w !! path with
   | None => Raise FileNotFoundError
   | Some (Text s) => read_image_records (lines s) ∅
   | Some _ => Raise ValueError
   end, w).
Proof.
  unfold read_images_text, bind, read_text, lift.
  by destruct (files w !! path) as [[| |]|].
Qed.

(** The whole function, by cases on what the reader returns. *)
Lemma poses_from_file_run (path : string) (w : world) :
  poses_from_file path w =
  (match (read_images_text path w).1 with
   | Raise e => Raise e
   | Ok d => if decide (d = ∅) then Raise ValueError
             else Ok ((λ kv, pose_of kv.2) <$> sorted_items d)
   end, w).
Proof.
  unfold poses_from_file, bind at 1. rewrite read_images_text_run. cbn [fst].
  destruct (match files w !! path with None => _ | _ => _ end) as [d|e]; [|done].
  pose proof (sorted_items_nil d) as Hnil.
  destruct (sorted_items d) as [|kv items] eqn:Hitems.
  - rewrite decide_True by by apply Hnil. done.
  - rewrite decide_False by (intros Hd; by apply Hnil in Hd).
    unfold bind, lift, ret. cbn [fmap list_fmap np_stack]. simpl.
    by rewrite stack_poses.
Qed.

Lemma read_image_records_keys (n : nat) :
  ∀ ls images d, (length ls ≤ n)%nat →
  (∀ k im, images !! k = Some im → img_id im = k) →
  read_image_records ls images = Ok d →
  ∀ k im, d !! k = Some im → img_id im = k.
Proof.
  induction n as [|n IH]; intros ls images d Hlen Hinv Hrun.
  { destruct ls; [|simpl in Hlen; lia]. simpl in Hrun. by simplify_eq. }
  assert (Hins : ∀ im0, ∀ k im, <[img_id im0 := im0]> images !! k = Some im → img_id im = k).
  { intros im0 k im. rewrite lookup_insert. case_decide; intros; simplify_eq; eauto. }
  destruct ls as [|line rest]; [simpl in Hrun; by simplify_eq|].
  cbn [length] in Hlen. cbn [read_image_records] in Hrun.
  destruct (String.words line) as [|tok elems]; [apply (IH rest images d); [lia|done..]|].
  destruct (is_comment tok); [apply (IH rest images d); [lia|done..]|].
  destruct rest as [|obs rest'].
  - destruct (parse_image_line _ _) as [im0|]; cbn [rbind] in Hrun; simplify_eq.
    apply Hins.
  - destruct (parse_image_line _ _) as [im0|]; cbn [rbind] in Hrun; simplify_eq.
    apply (IH rest' (<[img_id im0 := im0]> images) d); [|apply Hins|done].
    cbn [length] in Hlen. lia.
Qed.

Lemma read_image_records_well_formed (n : nat) :
  ∀ ls images d, (length ls ≤ n)%nat →
  read_image_records ls images = Ok d → well_formed ls.
Proof.
  induction n as [|n IH]; intros ls images d Hlen Hrun.
  { destruct ls; [constructor|simpl in Hlen; lia]. }
  destruct ls as [|line rest]; [constructor|].
  cbn [length] in Hlen. cbn [read_image_records] in Hrun.
  destruct (String.words line) as [|tok elems] eqn:Hw.
  { apply wf_skip; [unfold data_line; rewrite Hw; tauto|].
    apply (IH rest images d); [lia|done]. }
  destruct (is_comment tok) eqn:Hc.
  { apply wf_skip; [unfold data_line; rewrite Hw, Hc; done|].
    apply (IH rest images d); [lia|done]. }
  assert (Hdata : data_line line) by (unfold data_line; by rewrite Hw).

  destruct rest as [|obs rest'].
  - destruct (parse_image_line _ _) as [im0|] eqn:Hp; cbn [rbind] in Hrun; [|done].
    apply wf_last; [done|]. by rewrite Hw, Hp.
  - destruct (parse_image_line _ _) as [im0|] eqn:Hp; cbn [rbind] in Hrun; [|done].
    apply wf_record; [done|by rewrite Hw, Hp|].
    apply (IH rest' (<[img_id im0 := im0]> images) d); [|done].
    cbn [length] in Hlen. lia.
Qed.

Lemma well_formed_read_image_records (ls : list string) :
  well_formed ls → ∀ images, is_ok (read_image_records ls images) = true.
Proof.
  induction 1 as [|line rest Hskip _ IH|line obs rest Hdata Hp _ IH|line Hdata Hp];
    intros images; [done|..]; cbn [read_image_records]; unfold data_line in *;
    destruct (String.words line) as [|tok elems]; try done.
  - destruct (is_comment tok); [apply IH|]. by destruct Hskip.
  - rewrite Hdata. destruct (parse_image_line _ _); [apply IH|done].
  - rewrite Hdata. by destruct (parse_image_line _ _).
Qed.

(** C5: for an images list that the reader accepts and that holds at least
    one image record, [poses_from_file] returns one pose per image, in
    ascending order of the image identifiers; each pose is the 3x4 matrix
    whose first three columns are the rotation matrix of the image's
    quaternion and whose last column is the image's translation.  The file
    system is left as it was. *)
Theorem poses_from_file_sorted (extrinsic_file : string) (w : world) (d : gmap Z Image) :
  (read_images_text extrinsic_file w).1 = Ok d → d ≠ ∅ →
  ∃ items : list (Z * Image),
    poses_from_file extrinsic_file w
    = (Ok ((λ kv, cat_col (q_to_R (qvec kv.2)) (tvec kv.2)) <$> items), w) ∧
    items ≡ₚ map_to_list d ∧
    StronglySorted (λ a b, a.1 < b.1) items ∧
    (∀ kv, kv ∈ items → img_id kv.2 = kv.1) ∧
    items ≠ [].
Proof.
  intros Hread Hne. exists (sorted_items d).
  rewrite poses_from_file_run, Hread, decide_False by done.
  split; [done|]. split; [apply sorted_items_perm|].
  split; [apply sorted_items_sorted|]. split.
  - intros [k im] Hin. rewrite sorted_items_perm in Hin.
    apply elem_of_map_to_list in Hin. rewrite read_images_text_run in Hread.
    cbn [fst] in Hread. destruct (files w !! extrinsic_file) as [[s| |]|]; try done.
    by apply (read_image_records_keys (length (lines s)) (lines s) ∅ d).
  - by rewrite sorted_items_nil.
Qed.

(** C8: [poses_from_file] raises when the file is missing, raises when the
    file is malformed (whatever the reader raises), raises when the file holds
    no image record, and whenever it returns, the pose sequence is not
    empty. *)
Theorem poses_from_file_fails (extrinsic_file : string) (w : world) :
  (files w !! extrinsic_file = None →
   (poses_from_file extrinsic_file w).1 = Raise FileNotFoundError) ∧
  (∀ s, files w !! extrinsic_file = Some (Text s) → ¬ well_formed (lines s) →
        raises (poses_from_file extrinsic_file w).1) ∧
  (∀ e, (read_images_text extrinsic_file w).1 = Raise e →
        (poses_from_file extrinsic_file w).1 = Raise e) ∧
  ((read_images_text extrinsic_file w).1 = Ok ∅ →
   (poses_from_file extrinsic_file w).1 = Raise ValueError) ∧
  (∀ ps, (poses_from_file extrinsic_file w).1 = Ok ps → ps ≠ []).
Proof.
  rewrite poses_from_file_run. cbn [fst]. repeat split.
  - intros Hnone. rewrite read_images_text_run, Hnone. done.
  - intros s Hs Hbad. rewrite read_images_text_run, Hs. cbn [fst].
    destruct (read_image_records (lines s) ∅) as [d|e] eqn:Hrun; [|done].
    destruct Hbad. by eapply read_image_records_well_formed.
  - by intros e ->.
  - by intros ->.
  - intros ps. destruct (read_images_text extrinsic_file w).1 as [d|e]; [|done].
    case_decide as Hd; [done|]. intros [= <-] Hnil.
    apply fmap_nil_inv in Hnil. by apply sorted_items_nil in Hnil.
Qed.


End PoseReader.

(** ** create_mobile_brick_colmap_files *)

Lemma bind_ok {A B} (c : M A) (k : A → M B) (w w' : world) (b : B) :
  bind c k w = (Ok b, w') → ∃ a w1, c w = (Ok a, w1) ∧ k a w1 = (Ok b, w').
Proof. unfold bind. destruct (c w) as [[a|e] w1]; [eauto|done]. Qed.

Lemma ends_with_slash_app (x : string) (a : ascii) (y : string) :
  ends_with_slash (x +:+ String a y) = ends_with_slash (String a y).
Proof.
  induction x as [|b x IH]; [done|]. rewrite app_cons.
  change (ends_with_slash (String b (x +:+ String a y)))
    with (match x +:+ String a y with
          | "" => bool_decide (b = "/"%char)
          | _ => ends_with_slash (x +:+ String a y)
          end).
  rewrite IH. by destruct x.
Qed.

(** Joining a name that does not end in a slash with a relative name. *)
Lemma os_path_join_under (x : string) (a : ascii) (y b : string) :
  ends_with_slash (String a y) = false → is_abs b = false →
  os_path_join (x +:+ String a y) b = x +:+ String a y +:+ "/" +:+ b.
Proof.
  intros Hy Hb. rewrite os_path_join_rel by done. unfold dir_prefix.
  rewrite ends_with_slash_app, Hy. case_bool_decide as Hnil.
  - by destruct x.
  - by rewrite !app_assoc_str.
Qed.

Lemma first_component_not_abs (n : string) :
  first_component n ≠ "" → is_abs (first_component n) = false.
Proof.
  destruct n as [|a n]; [done|]. simpl. case_bool_decide; [done|].
  intros _. simpl. destruct (Ascii.eqb_spec a "/"); [done|].
  destruct a as [[] [] [] [] [] [] [] []]; done.
Qed.

Lemma entry_of_not_abs (d p f : string) : entry_of d p = Some f → is_abs f = false.
Proof.
  unfold entry_of. destruct (strip_prefix _ _) as [n|]; [|done].
  case_bool_decide as Hn; [done|]. intros [= <-]. by apply first_component_not_abs.
Qed.

Section Synthesizer.
Context `{NL : NumLib}.

Lemma np_loadtxt_run (p : string) (w : world) :
  np_loadtxt p w = (loadtxt_of (files w !! p), w).
Proof.
  unfold np_loadtxt, bind, read_text, lift, loadtxt_of.
  destruct (files w !! p) as [[s| |]|]; try done.
  destruct (rmapM _ _) as [rows|e]; [|done]. simpl. by destruct (same_length rows).
Qed.

Lemma sorted_files_run (d : string) (w : world) :
  ∃ r, sorted_files d w = (r, w) ∧
    ∀ l f, r = Ok l → f ∈ l → is_abs f = false.
Proof.
  unfold sorted_files, bind, os_listdir.
  destruct (isdir w d); [|destruct (isfile w d); eexists; split; done].
  eexists. split; [done|]. intros l f [= <-] Hf.
  rewrite merge_sort_Permutation in Hf. apply list_elem_of_filter in Hf as [_ Hf].
  apply elem_of_remove_dups, list_elem_of_omap in Hf as (p & _ & Hp).
  by apply entry_of_not_abs in Hp.
Qed.

Lemma f_write_run (f s : string) (w : world) :
  f_write f s w
  = (Ok tt, MkWorld (dirs w) (<[f := Text (text_at (files w) f +:+ s)]> (files w)) (stdout w)).
Proof. reflexivity. Qed.

(** One [let*] over a pure computation that has succeeded. *)
Ltac lifted H x Hx :=
  let w1 := fresh "w" in
  apply bind_ok in H as (x & w1 & Hx & H); injection Hx as Hx <-.

Lemma write_image_ok (dir f : string) (i : nat) (p : string * string) (w w' : world) :
  write_image dir f i p w = (Ok tt, w') →
  ∃ chunk, image_record dir (files w) i p chunk ∧
    w' = MkWorld (dirs w) (<[f := Text (text_at (files w) f +:+ chunk)]> (files w)) (stdout w).
Proof.
  unfold write_image. intros H.
  apply bind_ok in H as (E & w1 & HE & H). rewrite np_loadtxt_run in HE.
  injection HE as HE <-.
  lifted H Ei HEi. lifted H q Hq. lifted H t Ht.
  apply bind_ok in H as ([] & w1 & H1 & H). rewrite f_write_run in H1, H.
  injection H1 as <-. injection H as <-. cbn [dirs files stdout].
  eexists. split; [by exists E, Ei, q, t|].
  unfold text_at at 1. rewrite lookup_insert_eq, insert_insert_eq.
  by rewrite app_assoc_str.
Qed.

Lemma write_camera_ok (dir f : string) (i : nat) (p : string * string) (w w' : world) :
  write_camera dir f i p w = (Ok tt, w') →
  ∃ chunk, camera_record dir (files w) i p chunk ∧
    w' = MkWorld (dirs w) (<[f := Text (text_at (files w) f +:+ chunk)]> (files w)) (stdout w).
Proof.
  unfold write_camera. intros H.
  apply bind_ok in H as (K & w1 & HK & H). rewrite np_loadtxt_run in HK.
  injection HK as HK <-.
  lifted H fx Hfx. lifted H fy Hfy. lifted H cx Hcx. lifted H cy Hcy.
  rewrite f_write_run in H. injection H as <-.
  eexists. split; [|done]. by exists K, fx, fy, cx, cy.
Qed.

(** A loop whose body appends one chunk to the file [f] per element. *)
Lemma for_enumerate_appends {A} (body : nat → A → M unit) (f : string)
    (P : gmap string content → nat → A → string → Prop) (l : list A) :
  (∀ i x w w', body i x w = (Ok tt, w') →
     ∃ chunk, P (files w) i x chunk ∧
       w' = MkWorld (dirs w) (<[f := Text (text_at (files w) f +:+ chunk)]> (files w))
              (stdout w)) →
  (∀ x, x ∈ l → ∀ m c i chunk, P (<[f := c]> m) i x chunk → P m i x chunk) →
  ∀ i w w' t, files w !! f = Some (Text t) →
  for_enumerate i l body w = (Ok tt, w') →
  ∃ chunks, length chunks = length l ∧
    w' = MkWorld (dirs w) (<[f := Text (t +:+ joined chunks)]> (files w)) (stdout w) ∧
    ∀ j x, l !! j = Some x →
      ∃ chunk, chunks !! j = Some chunk ∧ P (files w) (i + j)%nat x chunk.
Proof.
  intros Hbody. induction l as [|x l IH]; intros Hstable i w w' t Hf Hrun.
  - injection Hrun as <-. exists []. split; [done|]. split; [|done].
    cbn [joined foldr]. by rewrite app_nil_r_str, insert_id, world_eta.
  - cbn [for_enumerate] in Hrun. apply bind_ok in Hrun as ([] & w1 & Hx & Hrun).
    apply Hbody in Hx as (chunk & HP & ->).
    unfold text_at in Hrun. rewrite Hf in Hrun.
    eapply IH in Hrun as (chunks & Hlen & -> & Hall);
      [|intros; eapply Hstable; [by right|done]|apply lookup_insert_eq].
    exists (chunk :: chunks). split; [simpl; by rewrite Hlen|].
    cbn [dirs files stdout]. split.
    + rewrite insert_insert_eq. cbn [joined foldr]. fold (joined chunks).
      by rewrite app_assoc_str.
    + intros [|j] y Hy.
      * injection Hy as <-. exists chunk. by rewrite Nat.add_0_r.
      * assert (Hin : y ∈ x :: l) by (right; by eapply list_elem_of_lookup_2).
        apply Hall in Hy as (chunk' & Hget & HP'). exists chunk'. split; [done|].
        rewrite Nat.add_succ_r. exact (Hstable y Hin (files w) _ _ _ HP').
Qed.

(** *** The paths the call reads and writes *)

Lemma sparse_file_eq (orig_dir name : string) :
  is_abs name = false →
  os_path_join (sparse_folder orig_dir) name = dir_prefix orig_dir +:+ "sparse/0/" +:+ name.
Proof.
  intros Hn. unfold sparse_folder. rewrite (os_path_join_rel orig_dir) by done.
  rewrite (os_path_join_under _ "s" "parse") by done.
  change (dir_prefix orig_dir +:+ "sparse" +:+ "/" +:+ "0")
    with (dir_prefix orig_dir +:+ String "s" "parse/0").
  by rewrite os_path_join_under.
Qed.

Lemma pose_file_eq (orig_dir f : string) :
  is_abs f = false →
  os_path_join (os_path_join orig_dir "pose") f = dir_prefix orig_dir +:+ "pose/" +:+ f.
Proof.
  intros Hf. rewrite (os_path_join_rel orig_dir) by done.
  by rewrite (os_path_join_under _ "p" "ose").
Qed.

Lemma intrinsic_file_eq (orig_dir f : string) :
  is_abs f = false →
  os_path_join (os_path_join orig_dir "intrinsic") f
  = dir_prefix orig_dir +:+ "intrinsic/" +:+ f.
Proof.
  intros Hf. rewrite (os_path_join_rel orig_dir) by done.
  by rewrite (os_path_join_under _ "i" "ntrinsic").
Qed.

Lemma pose_not_sparse (orig_dir f name : string) :
  is_abs f = false → is_abs name = false →
  os_path_join (os_path_join orig_dir "pose") f ≠ os_path_join (sparse_folder orig_dir) name.
Proof.
  intros Hf Hn. rewrite pose_file_eq, sparse_file_eq by done.
  intros H. by apply (inj (String.app _)) in H.
Qed.

Lemma intrinsic_not_sparse (orig_dir f name : string) :
  is_abs f = false → is_abs name = false →
  os_path_join (os_path_join orig_dir "intrinsic") f
  ≠ os_path_join (sparse_folder orig_dir) name.
Proof.
  intros Hf Hn. rewrite intrinsic_file_eq, sparse_file_eq by done.
  intros H. by apply (inj (String.app _)) in H.
Qed.

Lemma sparse_files_differ (orig_dir a b : string) :
  is_abs a = false → is_abs b = false → a ≠ b →
  os_path_join (sparse_folder orig_dir) a ≠ os_path_join (sparse_folder orig_dir) b.
Proof.
  intros Ha Hb Hab. rewrite !sparse_file_eq by done.
  intros H. by do 2 apply (inj (String.app _)) in H.
Qed.

Lemma image_record_insert (dir f : string) (c : content) (m : gmap string content)
    (i : nat) (p : string * string) (chunk : string) :
  os_path_join dir p.1 ≠ f →
  image_record dir (<[f := c]> m) i p chunk → image_record dir m i p chunk.
Proof. unfold image_record. intros Hne. by rewrite lookup_insert_ne. Qed.

Lemma camera_record_insert (dir f : string) (c : content) (m : gmap string content)
    (i : nat) (p : string * string) (chunk : string) :
  os_path_join dir p.1 ≠ f →
  camera_record dir (<[f := c]> m) i p chunk → camera_record dir m i p chunk.
Proof. unfold camera_record. intros Hne. by rewrite lookup_insert_ne. Qed.

Lemma open_w_ok (p : string) (w w' : world) :
  open_w p w = (Ok tt, w') →
  w' = MkWorld (dirs w) (<[p := Text ""]> (files w)) (stdout w).
Proof.
  unfold open_w, write_file.
  repeat (case_bool_decide || destruct (_ : bool)); by intros [= <-].
Qed.

Lemma f_write_after (f s t : string) (ds : gset string) (m : gmap string content)
    (out : list string) :
  f_write f s (MkWorld ds (<[f := Text t]> m) out)
  = (Ok tt, MkWorld ds (<[f := Text (t +:+ s)]> m) out).
Proof.
  rewrite f_write_run. cbn [dirs files stdout]. unfold text_at.
  by rewrite lookup_insert_eq, insert_insert_eq.
Qed.

Lemma cleaned_files_None (orig_dir p : string) (w : world) :
  files w !! p = None → files (cleaned orig_dir w) !! p = None.
Proof.
  intros Hp. unfold cleaned, rm_rf, os_makedirs. cbn [snd files].
  apply map_lookup_filter_None. left.
  repeat (case_bool_decide || destruct (_ : bool) || case_match); done.
Qed.

(** *** A successful call, step by step *)

Lemma synthesizer_ok (orig_dir colmap_name : string) (w w' : world)
    (exs imgs : list string) :
  let wc := cleaned orig_dir w in
  let sparse := sparse_folder orig_dir in
  let pairs := zip exs imgs in
  (sorted_files (os_path_join orig_dir "pose") wc).1 = Ok exs →
  (sorted_files (os_path_join orig_dir "images") wc).1 = Ok imgs →
  create_mobile_brick_colmap_files orig_dir colmap_name w = (Ok tt, w') →
  ∃ recs cams,
    length recs = length pairs ∧ length cams = length pairs ∧
    files w' !! os_path_join sparse "images.txt"
      = Some (Text (images_header +:+ joined recs)) ∧
    files w' !! os_path_join sparse "cameras.txt"
      = Some (Text (cameras_header +:+ joined cams)) ∧
    files w' !! os_path_join sparse "points3D.txt" = Some (Text "") ∧
    ∀ i p, pairs !! i = Some p →
      ∃ rec cam, recs !! i = Some rec ∧ cams !! i = Some cam ∧
        image_record (os_path_join orig_dir "pose") (files wc) i p rec ∧
        camera_record (os_path_join orig_dir "intrinsic") (files wc) i p cam.
Proof.
  intros wc sparse pairs Hexs Himgs Hrun.
  unfold create_mobile_brick_colmap_files in Hrun. fold (sparse_folder orig_dir) in Hrun.
  fold sparse in Hrun.
  apply bind_ok in Hrun as ([] & w1 & Hmk & Hrun).
  apply bind_ok in Hrun as ([] & w2 & Hrm & Hrun).
  assert (w2 = wc) as ->.
  { subst wc. unfold cleaned. fold sparse. rewrite Hmk. cbn [snd]. by rewrite Hrm. }
  clearbody wc.
  assert (Hlist : ∀ d l w3, sorted_files d wc = (Ok l, w3) →
            w3 = wc ∧ (sorted_files d wc).1 = Ok l ∧ ∀ f, f ∈ l → is_abs f = false).
  { intros d l w3 Hd. destruct (sorted_files_run d wc) as (r & Hr & Habs).
    rewrite Hr in Hd. injection Hd as -> <-. rewrite Hr. eauto. }
  apply bind_ok in Hrun as (exs' & w3 & H1 & Hrun).
  apply Hlist in H1 as (-> & H1 & Hexs_rel). rewrite Hexs in H1. injection H1 as <-.
  apply bind_ok in Hrun as (ins & w3 & H1 & Hrun). apply Hlist in H1 as (-> & _ & _).
  apply bind_ok in Hrun as (imgs' & w3 & H1 & Hrun).
  apply Hlist in H1 as (-> & H1 & _). rewrite Himgs in H1. injection H1 as <-.
  assert (Hpairs : ∀ x, x ∈ zip exs imgs → is_abs x.1 = false).
  { intros [a b] Hx. apply Hexs_rel. by eapply elem_of_zip_l. }
  (* images.txt *)
  apply bind_ok in Hrun as ([] & w3 & H1 & Hrun). apply open_w_ok in H1 as ->.
  unfold bind at 1 in Hrun. rewrite f_write_after in Hrun.
  unfold bind at 1 in Hrun. rewrite f_write_after in Hrun.
  unfold bind at 1 in Hrun. rewrite f_write_after in Hrun.
  apply bind_ok in Hrun as ([] & w3 & Hloop & Hrun).
  eapply (for_enumerate_appends _ _ (image_record (os_path_join orig_dir "pose")))
    in Hloop;
    [|apply write_image_ok
     |intros x Hx m c i chunk; apply image_record_insert, pose_not_sparse; auto
     |apply lookup_insert_eq].
  destruct Hloop as (recs & Hrecs & -> & Hrec).
  cbn [dirs files stdout] in Hrun, Hrec. rewrite insert_insert_eq in Hrun.
  (* cameras.txt *)
  apply bind_ok in Hrun as ([] & w3 & H1 & Hrun). apply open_w_ok in H1 as ->.
  cbn [dirs files stdout] in Hrun.
  unfold bind at 1 in Hrun. rewrite f_write_after in Hrun.
  unfold bind at 1 in Hrun. rewrite f_write_after in Hrun.
  apply bind_ok in Hrun as ([] & w3 & Hloop & Hrun).
  eapply (for_enumerate_appends _ _ (camera_record (os_path_join orig_dir "intrinsic")))
    in Hloop;
    [|apply write_camera_ok
     |intros x Hx m c i chunk; apply camera_record_insert, intrinsic_not_sparse; auto
     |apply lookup_insert_eq].
  destruct Hloop as (cams & Hcams & -> & Hcam).
  cbn [dirs files stdout] in Hrun, Hcam. rewrite insert_insert_eq in Hrun.
  (* points3D.txt *)
  apply open_w_ok in Hrun as ->. cbn [files].
  exists recs, cams. split; [done|]. split; [done|].
  split.
  { rewrite lookup_insert_ne by by apply sparse_files_differ.
    rewrite lookup_insert_ne by by apply sparse_files_differ.
    by rewrite lookup_insert_eq. }
  split.
  { rewrite lookup_insert_ne by by apply sparse_files_differ.
    by rewrite lookup_insert_eq. }
  split; [by rewrite lookup_insert_eq|].
  intros i p Hp.
  destruct (Hrec i p Hp) as (rec & Hr & HR). destruct (Hcam i p Hp) as (cam & Hc & HC).
  assert (Hin : p ∈ zip exs imgs) by by eapply list_elem_of_lookup_2.
  exists rec, cam. split; [done|]. split; [done|]. split.
  - eapply image_record_insert; [|exact HR]. apply pose_not_sparse; auto.
  - eapply camera_record_insert; [|eapply camera_record_insert; [|exact HC]];
      apply intrinsic_not_sparse; auto.
Qed.

(** C10: the two loops of [create_mobile_brick_colmap_files] run over
    [zip(extrinsics_files, image_files)].  When the call returns, images.txt
    holds its header and then exactly the records of the pairs, cameras.txt
    its header and then exactly the lines of the pairs, so both hold
    min(#extrinsic files, #image files) records whatever the intrinsics
    folder lists.  The [i]-th record of images.txt is the line
    [i+1 QW QX QY QZ TX TY TZ i+1 name] of the inverse of the matrix loaded
    from the [i]-th extrinsic file and of the [i]-th image name, and a blank
    line; the [i]-th camera line prints entries (0,0), (1,1), (0,2), (1,2) of
    the matrix loaded from the intrinsics folder under the name of the [i]-th
    extrinsic file.  When the intrinsics folder has no file of that name, the
    call raises. *)
Theorem synthesizer_record_count (orig_dir colmap_name : string) (w : world)
    (exs imgs : list string) :
  let wc := cleaned orig_dir w in
  let sparse := sparse_folder orig_dir in
  let extrinsics_dir := os_path_join orig_dir "pose" in
  let intrinsics_dir := os_path_join orig_dir "intrinsic" in
  (sorted_files extrinsics_dir wc).1 = Ok exs →
  (sorted_files (os_path_join orig_dir "images") wc).1 = Ok imgs →
  (∀ w', create_mobile_brick_colmap_files orig_dir colmap_name w = (Ok tt, w') →
     ∃ recs cams,
       files w' !! os_path_join sparse "images.txt"
         = Some (Text (images_header +:+ joined recs)) ∧
       files w' !! os_path_join sparse "cameras.txt"
         = Some (Text (cameras_header +:+ joined cams)) ∧
       length recs = (length exs `min` length imgs)%nat ∧
       length cams = (length exs `min` length imgs)%nat ∧
       ∀ i ex img, exs !! i = Some ex → imgs !! i = Some img →
         ∃ E Ei q t K fx fy cx cy,
           loadtxt_of (files wc !! os_path_join extrinsics_dir ex) = Ok E ∧
           arr_inv E = Ok Ei ∧
           matrix_to_quaternion (block33 Ei) = Ok q ∧
           rbind (col3 Ei) unpack3 = Ok t ∧
           recs !! i = Some (image_line i q t img +:+ nl) ∧
           loadtxt_of (files wc !! os_path_join intrinsics_dir ex) = Ok K ∧
           get2 K 0 0 = Ok fx ∧ get2 K 1 1 = Ok fy ∧
           get2 K 0 2 = Ok cx ∧ get2 K 1 2 = Ok cy ∧
           cams !! i = Some (camera_line i fx fy cx cy)) ∧
  (∀ i ex img, exs !! i = Some ex → imgs !! i = Some img →
     files w !! os_path_join intrinsics_dir ex = None →
     raises (create_mobile_brick_colmap_files orig_dir colmap_name w).1).
Proof.
  intros wc sparse extrinsics_dir intrinsics_dir Hexs Himgs.
  assert (Hok : ∀ w', create_mobile_brick_colmap_files orig_dir colmap_name w = (Ok tt, w') →
     ∃ recs cams,
       files w' !! os_path_join sparse "images.txt"
         = Some (Text (images_header +:+ joined recs)) ∧
       files w' !! os_path_join sparse "cameras.txt"
         = Some (Text (cameras_header +:+ joined cams)) ∧
       length recs = (length exs `min` length imgs)%nat ∧
       length cams = (length exs `min` length imgs)%nat ∧
       ∀ i ex img, exs !! i = Some ex → imgs !! i = Some img →
         ∃ E Ei q t K fx fy cx cy,
           loadtxt_of (files wc !! os_path_join extrinsics_dir ex) = Ok E ∧
           arr_inv E = Ok Ei ∧
           matrix_to_quaternion (block33 Ei) = Ok q ∧
           rbind (col3 Ei) unpack3 = Ok t ∧
           recs !! i = Some (image_line i q t img +:+ nl) ∧
           loadtxt_of (files wc !! os_path_join intrinsics_dir ex) = Ok K ∧
           get2 K 0 0 = Ok fx ∧ get2 K 1 1 = Ok fy ∧
           get2 K 0 2 = Ok cx ∧ get2 K 1 2 = Ok cy ∧
           cams !! i = Some (camera_line i fx fy cx cy)).
  { intros w' Hrun.
    destruct (synthesizer_ok orig_dir colmap_name w w' exs imgs Hexs Himgs Hrun)
      as (recs & cams & Hrecs & Hcams & Himg & Hcam & _ & Hall).
    rewrite length_zip in Hrecs, Hcams.
    exists recs, cams. do 4 (split; [done|]).
    intros i ex img Hex Hi.
    destruct (Hall i (ex, img)) as (rec & cam & Hr & Hc & HR & HC).
    { apply lookup_zip_with_Some. eauto. }
    destruct HR as (E & Ei & q & t & HE & HEi & Hq & Ht & ->).
    destruct HC as (K & fx & fy & cx & cy & HK & ? & ? & ? & ? & ->).
    by exists E, Ei, q, t, K, fx, fy, cx, cy. }
  split; [exact Hok|].
  intros i ex img Hex Hi Hnone.
  destruct (create_mobile_brick_colmap_files orig_dir colmap_name w) as [[[]|e] w'] eqn:Hrun;
    [|done].
  destruct (Hok w' eq_refl) as (recs & cams & _ & _ & _ & _ & Hall).
  destruct (Hall i ex img Hex Hi)
    as (? & ? & ? & ? & K & ? & ? & ? & ? & _ & _ & _ & _ & _ & HK & _).
  subst wc. by rewrite (cleaned_files_None _ _ _ Hnone) in HK.
Qed.

End Synthesizer.

(** * Further properties *)

(** ** extract_frames *)

Lemma sampled_opp (k : Z) (n : nat) : sampled (- k) n = sampled k n.
Proof.
  unfold sampled. apply list_filter_iff. intros c.
  destruct (decide (k = 0)) as [->|Hk]; [done|].
  rewrite !Z.mod_divide by lia. apply Z.divide_opp_l.
Qed.

Lemma cv2_imwrite_cases (p : string) (im : image) (w : world) :
  cv2_imwrite p im w = (Ok tt, w) ∨
  cv2_imwrite p im w = (Ok tt, MkWorld (dirs w) (<[p := Png im]> (files w)) (stdout w)).
Proof. unfold cv2_imwrite. destruct (_ && _); [by right|by left]. Qed.

(** Whatever becomes of the writes, the loop returns when the interval is not
    zero, and it prints nothing. *)
Lemma frame_loop_returns (folder : string) (k : Z) (pending : list image) :
  k ≠ 0 → ∀ (count : nat) (w : world), (frame_loop folder k count pending w).1 = Ok tt.
Proof.
  intros Hk. induction pending as [|im rest IH]; intros count w; [done|].
  cbn [frame_loop]. unfold bind at 1, lift, py_mod.
  destruct (Z.eqb_spec k 0) as [|_]; [done|]. unfold bind.
  destruct (Z.of_nat count mod k =? 0); cbn [when]; [|apply IH].
  destruct (cv2_imwrite_cases (os_path_join folder (frame_name count)) im w) as [-> | ->];
    apply IH.
Qed.

Lemma frame_loop_stdout (folder : string) (k : Z) (pending : list image) :
  ∀ (count : nat) (w : world), stdout (frame_loop folder k count pending w).2 = stdout w.
Proof.
  induction pending as [|im rest IH]; intros count w; [done|].
  cbn [frame_loop]. unfold bind at 1, lift, py_mod.
  destruct (k =? 0); [done|]. unfold bind.
  destruct (Z.of_nat count mod k =? 0); cbn [when].
  - destruct (cv2_imwrite_cases (os_path_join folder (frame_name count)) im w) as [-> | ->];
      by rewrite IH.
  - unfold ret. by rewrite IH.
Qed.

Lemma frame_loop_opp (folder : string) (k : Z) (pending : list image) :
  ∀ (count : nat) (w : world),
  frame_loop folder (- k) count pending w = frame_loop folder k count pending w.
Proof.
  induction pending as [|im rest IH]; intros count w; [done|].
  cbn [frame_loop]. unfold bind at 1 3, lift, py_mod.
  destruct (Z.eqb_spec k 0) as [->|Hk]; [done|].
  rewrite (proj2 (Z.eqb_neq (- k) 0)) by lia.
  assert ((Z.of_nat count mod - k =? 0) = (Z.of_nat count mod k =? 0)) as ->.
  { apply eq_iff_eq_true. rewrite !Z.eqb_eq, !Z.mod_divide by lia.
    apply Z.divide_opp_l. }
  unfold bind. destruct (when _ _ w) as [[[]|e] w1]; [apply IH|done].
Qed.

(** X1: in a file system where the output folder is there or can be created
    (the paths are in normal form and no regular file lies at the folder's
    path or on the way to it), [extract_frames] raises in one situation only,
    the division by a zero interval on a video that opens with at least one
    readable frame; in every other situation it returns normally. *)
Theorem extract_frames_raises_iff (video_path output_folder : string) (interval : Z)
    (verbose : bool) (w : world) :
  tidy w = true → plain video_path = true →
  plain output_folder = true → clear_way w output_folder = true →
  let r := (extract_frames video_path output_folder interval verbose w).1 in
  (r = Ok tt ∨ r = Raise ZeroDivisionError) ∧
  (r = Raise ZeroDivisionError ↔
     interval = 0 ∧ ∃ v, files w !! video_path = Some (Video v) ∧ v_frames v ≠ []).
Proof.
  intros _ _ Hplain Hclear. cbn zeta.
  pose proof (ready_of_clear w output_folder Hplain Hclear) as Hr.
  destruct (video_at w video_path) as [v|] eqn:Hv.
  - apply video_at_Some in Hv. destruct (decide (interval = 0)) as [->|Hk].
    + destruct (v_frames v) as [|im rest] eqn:Hfr.
      * rewrite (extract_frames_at_loop _ _ _ _ _ v Hr Hv), Hfr.
        assert (Hok : ((frame_loop output_folder 0 0 [] >>
                        when verbose (print "Done extracting frames"))
                         (loop_start w output_folder verbose v)).1 = Ok tt)
          by by destruct verbose.
        rewrite Hok. split; [by left|]. split; [done|].
        intros (_ & v' & Hv' & Hne). rewrite Hv in Hv'. injection Hv' as <-.
        by rewrite Hfr in Hne.
      * destruct (extract_frames_zero video_path output_folder verbose w v Hr Hv)
          as (w' & -> & _); [by rewrite Hfr|].
        cbn [fst]. split; [by right|]. split; [|done].
        intros _. split; [done|]. exists v. by rewrite Hfr.
    + rewrite (extract_frames_at_loop _ _ _ _ _ v Hr Hv). unfold bind.
      pose proof (frame_loop_returns output_folder interval (v_frames v) Hk 0
                    (loop_start w output_folder verbose v)) as Hloop.
      destruct (frame_loop output_folder interval 0 (v_frames v) _) as [r1 w1].
      cbn [fst] in Hloop. subst r1.
      assert (Hok : (when verbose (print "Done extracting frames") w1).1 = Ok tt)
        by by destruct verbose.
      rewrite Hok. split; [by left|]. split; [done|]. by intros [? _].
  - rewrite extract_frames_unopened_run by done. cbn [fst].
    split; [by left|]. split; [done|].
    intros (_ & v & Hv' & _). apply video_at_Some in Hv'. by rewrite Hv in Hv'.
Qed.

(** X2: the sign of the interval does not matter: with interval [-k] the call
    prints, writes and returns exactly as with interval [k]. *)
Theorem extract_frames_interval_sign (video_path output_folder : string) (k : Z)
    (verbose : bool) (w : world) :
  extract_frames video_path output_folder (- k) verbose w
  = extract_frames video_path output_folder k verbose w.
Proof.
  unfold extract_frames, bind.
  destruct (os_path_exists output_folder w) as [[ex|e] w1]; [|done].
  destruct ex; cbn [negb]; cbv beta;
    repeat match goal with
    | |- context [when verbose ?c ?x] =>
        destruct (when verbose c x) as [[[]|?] ?]; [|done]
    | |- context [os_makedirs ?p ?b ?x] =>
        destruct (os_makedirs p b x) as [[[]|?] ?]; [|done]
    | |- context [cv2_VideoCapture ?p ?x] =>
        destruct (cv2_VideoCapture p x) as [[[?|]|?] ?]; [|done..]
    end;
    by rewrite frame_loop_opp.
Qed.

(** X3: in a file system where the output folder is there or can be created,
    on a video that opens but has no readable frame the call returns normally
    and leaves every file as it was, whatever the interval, zero included: the
    modulo is never evaluated. *)
Theorem extract_frames_no_frames (video_path output_folder : string) (interval : Z)
    (verbose : bool) (w : world) (v : video) :
  tidy w = true → plain output_folder = true → clear_way w output_folder = true →
  files w !! video_path = Some (Video v) → v_frames v = [] →
  ∃ w', extract_frames video_path output_folder interval verbose w = (Ok tt, w') ∧
    files w' = files w.
Proof.
  intros _ Hplain Hclear Hv Hfr.
  rewrite (extract_frames_at_loop _ _ _ _ _ v (ready_of_clear _ _ Hplain Hclear) Hv), Hfr.
  destruct verbose; eexists; split; reflexivity.
Qed.

Lemma sampled_single (k : Z) (n : nat) :
  (1 ≤ n)%nat → Z.of_nat n ≤ k → sampled k n = [0%nat].
Proof.
  intros Hn Hk. unfold sampled. induction n as [|n IH]; [lia|].
  rewrite seq_S, filter_app. change (0 + n)%nat with n.
  rewrite filter_cons, filter_nil. destruct n as [|n].
  - rewrite decide_True; [done|]. apply Z.mod_0_l. lia.
  - rewrite IH by lia. rewrite decide_False; [done|].
    rewrite Z.mod_small by lia. lia.
Qed.

(** X4: in a file system where the output folder is there or can be created
    and the name IMG_00000.png in it is taken neither by a folder nor by the
    video itself: when the interval is at least the number of readable frames
    (and there is a frame), the call writes one file only, IMG_00000.png with
    the first frame. *)
Theorem extract_frames_large_interval (video_path output_folder : string) (k : Z)
    (verbose : bool) (w : world) (v : video) (first : image) (rest : list image) :
  tidy w = true → plain output_folder = true → clear_way w output_folder = true →
  files w !! video_path = Some (Video v) → v_frames v = first :: rest →
  os_path_join output_folder "IMG_00000.png" ∉ dirs w →
  os_path_join output_folder "IMG_00000.png" ≠ video_path →
  Z.of_nat (length (v_frames v)) ≤ k →
  ∃ w', extract_frames video_path output_folder k verbose w = (Ok tt, w') ∧
    files w' = <[os_path_join output_folder "IMG_00000.png" := Png first]> (files w).
Proof.
  intros _ Hplain Hclear Hv Hfr Hfree _ Hk.
  assert (Hs : sampled k (length (v_frames v)) = [0%nat]).
  { apply sampled_single; [rewrite Hfr; simpl; lia|done]. }
  destruct (extract_frames_opened video_path output_folder k verbose w v) as [out ->].
  - by apply ready_of_clear.
  - done.
  - done.
  - rewrite Hfr in Hk. simpl in Hk. lia.
  - rewrite Hs. intros c ->%list_elem_of_singleton. exact Hfree.
  - eexists. split; [done|]. cbn [files]. rewrite Hs.
    cbn [foldl]. unfold put_frame, frame_at. by rewrite Hfr.
Qed.

Lemma foldl_put_twice (folder : string) (frames : list image) (l : list nat)
    (m : gmap string content) :
  foldl (put_frame folder frames) (foldl (put_frame folder frames) m l) l
  = foldl (put_frame folder frames) m l.
Proof.
  apply map_eq. intros p.
  destruct (decide (p ∈ (λ c, os_path_join folder (frame_name c)) <$> l)) as [Hin|Hout].
  - apply list_elem_of_fmap in Hin as (c & -> & Hc). by rewrite !foldl_put_lookup.
  - rewrite foldl_put_other; [done|].
    intros c Hc <-. apply Hout, list_elem_of_fmap. eauto.
Qed.

(** X5: in a file system where the output folder is there or can be created
    and no frame file name is taken by a folder or by the video itself,
    running the call again with the same arguments changes nothing more: the
    second run returns normally and leaves the files and directories of the
    first. *)
Theorem extract_frames_rerun (video_path output_folder : string) (k : Z)
    (verbose : bool) (w : world) (v : video) :
  tidy w = true → plain output_folder = true → clear_way w output_folder = true →
  files w !! video_path = Some (Video v) → k ≠ 0 →
  (∀ c, (os_path_join output_folder (frame_name c) ∉ dirs w) ∧
        os_path_join output_folder (frame_name c) ≠ video_path) →
  ∃ w1 w2,
    extract_frames video_path output_folder k verbose w = (Ok tt, w1) ∧
    extract_frames video_path output_folder k verbose w1 = (Ok tt, w2) ∧
    files w2 = files w1 ∧ dirs w2 = dirs w1.
Proof.
  intros _ Hplain Hclear Hv Hk Hout.
  pose proof (ready_of_clear w output_folder Hplain Hclear) as Hr.
  destruct (extract_frames_opened video_path output_folder k verbose w v Hr Hplain Hv Hk)
    as [out Hrun1]; [intros c _; apply Hout|].
  set (w1 := MkWorld _ _ _) in Hrun1.
  assert (Hv1 : files w1 !! video_path = Some (Video v)).
  { subst w1. cbn [files]. rewrite foldl_put_other; [done|]. intros c _. apply Hout. }
  assert (Hd1 : isdir w1 output_folder = true).
  { apply bool_decide_eq_true. subst w1. cbn [dirs]. by apply ready_in_dirs. }
  destruct (extract_frames_opened video_path output_folder k verbose w1 v)
    as [out2 Hrun2]; [by left|done|done|done| |].
  { intros c _. subst w1. cbn [dirs]. apply frame_paths_free; [done|apply Hout]. }
  exists w1, (MkWorld (folder_dirs w1 output_folder)
                (foldl (put_frame output_folder (v_frames v)) (files w1)
                   (sampled k (length (v_frames v)))) out2).
  split; [done|]. split; [done|]. cbn [files dirs]. split.
  - subst w1. cbn [files]. apply foldl_put_twice.
  - unfold folder_dirs at 1, folder_exists. fold (isdir w1 output_folder).
    by rewrite Hd1.
Qed.

(** X12: in a file system where the output folder is there or can be created,
    with [verbose=False] the call prints nothing, except for the line that
    tells that the video could not be opened, which does not depend on the
    flag.  This holds for every interval, whether the call returns or
    raises. *)
Theorem extract_frames_quiet (video_path output_folder : string) (interval : Z)
    (w : world) :
  tidy w = true → plain video_path = true →
  plain output_folder = true → clear_way w output_folder = true →
  stdout (extract_frames video_path output_folder interval false w).2
  = (stdout w ++ match video_at w video_path with
                 | Some _ => []
                 | None => ["Error: Could not open video."]
                 end)%list.
Proof.
  intros _ _ Hplain Hclear.
  pose proof (ready_of_clear w output_folder Hplain Hclear) as Hr.
  destruct (video_at w video_path) as [v|] eqn:Hv.
  - apply video_at_Some in Hv. rewrite (extract_frames_at_loop _ _ _ _ _ v Hr Hv).
    unfold bind.
    pose proof (frame_loop_stdout output_folder interval (v_frames v) 0
                  (loop_start w output_folder false v)) as Hout.
    destruct (frame_loop output_folder interval 0 (v_frames v)
                (loop_start w output_folder false v)) as [[[]|e] w1];
      cbn [snd when ret] in *; rewrite Hout; cbn [loop_start stdout folder_message];
      by rewrite !app_nil_r.
  - by rewrite extract_frames_unopened_run.
Qed.

(** *** The order of the frame names *)

#[local] Set Warnings "-abstract-large-number".

Lemma string_of_uint_zeros (z : nat) (d : uint) :
  NilEmpty.string_of_uint (Nat.iter z D0 d) = zeros z +:+ NilEmpty.string_of_uint d.
Proof. induction z as [|z IH]; [done|]. simpl. by rewrite IH. Qed.

Lemma length_string_of_uint (d : uint) :
  String.length (NilEmpty.string_of_uint d) = Unsigned.usize d.
Proof. induction d; simpl; congruence. Qed.

Lemma usize_nb_digits (d : uint) : Unsigned.usize d = nb_digits d.
Proof. induction d; simpl; congruence. Qed.

Lemma of_uint_hd (d : uint) :
  Nat.of_uint d
  = (Nat.of_uint (Unsigned.tl d) + Unsigned.hd d * 10 ^ Unsigned.usize (Unsigned.tl d))%nat.
Proof.
  destruct d; unfold Nat.of_uint; simpl Nat.of_uint_acc; simpl Unsigned.tl;
    simpl Unsigned.hd; rewrite ?Unsigned.of_uint_acc_spec, ?Nat.tail_mul_spec; simpl; lia.
Qed.

Lemma of_uint_bound (d : uint) : (Nat.of_uint d < 10 ^ Unsigned.usize d)%nat.
Proof.
  induction d; rewrite of_uint_hd; simpl Unsigned.tl; simpl Unsigned.hd;
    simpl Unsigned.usize; rewrite ?Nat.pow_succ_r'; try lia.
  simpl. lia.
Qed.

(** Digit strings of one length compare as the numbers they spell. *)
Lemma compare_digits (d1 : uint) :
  ∀ d2, Unsigned.usize d1 = Unsigned.usize d2 →
  (Nat.of_uint d1 < Nat.of_uint d2)%nat →
  (NilEmpty.string_of_uint d1 ?= NilEmpty.string_of_uint d2)%string = Lt.
Proof.
  induction d1 as [|d1 IH|d1 IH|d1 IH|d1 IH|d1 IH|d1 IH|d1 IH|d1 IH|d1 IH|d1 IH];
    intros d2 Hlen Hlt; destruct d2 as [|d2|d2|d2|d2|d2|d2|d2|d2|d2|d2];
    simpl Unsigned.usize in Hlen; try discriminate Hlen;
    [unfold Nat.of_uint in Hlt; simpl in Hlt; lia|..];
    injection Hlen as Hlen;
    match type of Hlt with
    | (Nat.of_uint ?x < Nat.of_uint ?y)%nat => rewrite (of_uint_hd x), (of_uint_hd y) in Hlt
    end;
    simpl Unsigned.tl in Hlt; simpl Unsigned.hd in Hlt; rewrite Hlen in Hlt;
    pose proof (of_uint_bound d1) as B1; pose proof (of_uint_bound d2) as B2;
    rewrite Hlen in B1;
    first [ reflexivity
          | simpl; apply IH; [exact Hlen | lia]
          | exfalso; nia ].
Qed.

Lemma compare_app_l (p x y : string) : (p +:+ x ?= p +:+ y)%string = (x ?= y)%string.
Proof.
  induction p as [|a p IH]; [done|]. rewrite !app_cons. simpl.
  assert (Ascii.compare a a = Eq) as ->; [|done].
  unfold Ascii.compare. apply N.compare_refl.
Qed.

Lemma compare_app_lt (x : string) :
  ∀ y s t, String.length x = String.length y → (x ?= y)%string = Lt →
  (x +:+ s ?= y +:+ t)%string = Lt.
Proof.
  induction x as [|a x IH]; intros [|b y] s t Hlen Hlt; try done.
  rewrite !app_cons. simpl in *. destruct (Ascii.compare a b); try done.
  apply IH; [lia|done].
Qed.

Lemma to_uint_digits (n : nat) : (n < 100000)%nat → (Unsigned.usize (Nat.to_uint n) ≤ 5)%nat.
Proof.
  intros Hn. set (d := Nat.to_uint n).
  assert (Hnorm : unorm d = d).
  { subst d. rewrite <- (Unsigned.of_to n) at 2. symmetry. apply Unsigned.to_of. }
  assert (Hval : Nat.of_uint d = n) by apply Unsigned.of_to.
  destruct (decide (Unsigned.usize d ≤ 5)%nat) as [|Hbig]; [done|]. exfalso.
  assert (Hhd : (1 ≤ Unsigned.hd d)%nat).
  { destruct d as [|d'|d'|d'|d'|d'|d'|d'|d'|d'|d']; simpl; try lia.
    - simpl in Hbig. lia.
    - exfalso. rewrite unorm_D0 in Hnorm.
      assert (d' ≠ Nil) by (intros ->; simpl in Hbig; lia).
      pose proof (nb_digits_unorm d' ltac:(done)) as Hle.
      rewrite Hnorm in Hle. simpl in Hle. lia. }
  rewrite of_uint_hd in Hval.
  assert (Hpow : (10 ^ 5 ≤ 10 ^ Unsigned.usize (Unsigned.tl d))%nat).
  { apply Nat.pow_le_mono_r; [lia|].
    destruct d; simpl in Hbig |- *; lia. }
  change (10 ^ 5)%nat with 100000%nat in Hpow. nia.
Qed.

(** X6: below frame 100000 the names of the frames sort as the frames do:
    for a < b < 100000 the name of frame [a] comes strictly before the name of
    frame [b] in the order of code points that [sorted] uses.  From frame
    100000 on this fails: its name sorts before the name of frame 99999. *)
Theorem frame_names_sorted (a b : nat) :
  (a < b)%nat → (b < 100000)%nat →
  (frame_name a ?= frame_name b)%string = Lt.
Proof.
  intros Hab Hb. unfold frame_name. rewrite compare_app_l.
  pose proof (to_uint_digits a ltac:(lia)) as Ha5.
  pose proof (to_uint_digits b Hb) as Hb5.
  unfold format_05, str_nat. rewrite !length_string_of_uint, <- !string_of_uint_zeros.
  pose proof (usize_nb_digits (Nat.to_uint a)) as Ea.
  pose proof (usize_nb_digits (Nat.to_uint b)) as Eb.
  apply compare_app_lt.
  - rewrite !length_string_of_uint, !usize_nb_digits, !nb_digits_iter_D0. lia.
  - apply compare_digits.
    + rewrite !usize_nb_digits, !nb_digits_iter_D0. lia.
    + by rewrite !of_uint_leading_zeros, !Unsigned.of_to.
Qed.

Example frame_names_unsorted : (frame_name 100000 ?= frame_name 99999)%string = Lt.
Proof. by vm_compute. Qed.

(** ** create_mobile_brick_colmap_files *)

Section SynthesizerFurther.
Context `{NL : NumLib}.

#[local] Instance same_but_refl (S : string → Prop) : Reflexive (same_but S).
Proof. by intros w. Qed.

#[local] Instance same_but_trans (S : string → Prop) : Transitive (same_but S).
Proof.
  intros w1 w2 w3 [H1 O1] [H2 O2]. split; [|congruence].
  intros p Hp. by rewrite H2, H1.
Qed.

Lemma keeps_ret {A} (R : world → world → Prop) `{!Reflexive R} (a : A) : keeps R (ret a).
Proof. by intros w. Qed.

Lemma keeps_lift {A} (R : world → world → Prop) `{!Reflexive R} (r : result A) :
  keeps R (lift r).
Proof. by intros w. Qed.

Lemma keeps_bind {A B} (R : world → world → Prop) `{!Transitive R}
    (c : M A) (k : A → M B) :
  keeps R c → (∀ a, keeps R (k a)) → keeps R (bind c k).
Proof.
  intros Hc Hk w. unfold bind. specialize (Hc w).
  destruct (c w) as [[a|e] w1]; [|done]. cbn [snd] in Hc.
  etrans; [exact Hc|apply Hk].
Qed.

Lemma keeps_for_enumerate {A} (R : world → world → Prop) `{!Reflexive R, !Transitive R}
    (body : nat → A → M unit) (l : list A) :
  (∀ i x, keeps R (body i x)) → ∀ i, keeps R (for_enumerate i l body).
Proof.
  intros Hbody. induction l as [|x l IH]; intros i; [by apply keeps_ret|].
  cbn [for_enumerate]. apply keeps_bind; [done|apply Hbody|intros _; apply IH].
Qed.

Lemma keeps_readonly {A} (R : world → world → Prop) `{!Reflexive R} (c : M A) :
  (∀ w, (c w).2 = w) → keeps R c.
Proof. intros Hc w. by rewrite Hc. Qed.

Lemma keeps_write_file (S : string → Prop) (f : string) (c : content) :
  S f → keeps (same_but S) (write_file f c).
Proof.
  intros Hf w. split; [|done]. intros p Hp. cbn.
  apply lookup_insert_ne. by intros ->.
Qed.

Lemma keeps_f_write (S : string → Prop) (f s : string) :
  S f → keeps (same_but S) (f_write f s).
Proof.
  intros Hf w. split; [|done]. intros p Hp. cbn.
  apply lookup_insert_ne. by intros ->.
Qed.

Lemma keeps_makedirs (S : string → Prop) (p : string) (exist_ok : bool) :
  keeps (same_but S) (os_makedirs p exist_ok).
Proof.
  intros w. unfold os_makedirs.
  destruct (bool_decide (p = "")); [done|]. destruct (isfile w p); [done|].
  destruct (isdir w p); [by destruct exist_ok|]. by destruct (file_above w p).
Qed.

Lemma keeps_open_w (S : string → Prop) (f : string) :
  S f → keeps (same_but S) (open_w f).
Proof.
  intros Hf w. unfold open_w.
  destruct (bool_decide (f = "")); [done|]. destruct (isdir w f); [done|].
  destruct (parent_is_dir w f); [by apply keeps_write_file|done].
Qed.

Lemma keeps_rm_rf (S : string → Prop) (d : string) :
  (∀ p, p = d ∨ below d p → S p) → keeps (same_but S) (rm_rf d).
Proof.
  intros HS w. split; [|done]. intros p Hp. cbn. rewrite map_lookup_filter.
  destruct (files w !! p) as [c|]; [|done]. simpl.
  rewrite option_guard_True; [done|]. simpl. split; intros ?; apply Hp, HS; auto.
Qed.

Lemma sorted_files_readonly (d : string) (w : world) : (sorted_files d w).2 = w.
Proof. destruct (sorted_files_run d w) as (r & -> & _). done. Qed.

Lemma np_loadtxt_readonly (p : string) (w : world) : (np_loadtxt p w).2 = w.
Proof. by rewrite np_loadtxt_run. Qed.

Lemma keeps_write_image (S : string → Prop) (dir f : string) (i : nat)
    (p : string * string) :
  S f → keeps (same_but S) (write_image dir f i p).
Proof.
  intros Hf. unfold write_image.
  apply keeps_bind; [apply _|apply keeps_readonly; [apply _|apply np_loadtxt_readonly]|].
  intros E. repeat (apply keeps_bind; [apply _|by apply keeps_lift|intros ?]).
  apply keeps_bind; [apply _|by apply keeps_f_write|intros _; by apply keeps_f_write].
Qed.

Lemma keeps_write_camera (S : string → Prop) (dir f : string) (i : nat)
    (p : string * string) :
  S f → keeps (same_but S) (write_camera dir f i p).
Proof.
  intros Hf. unfold write_camera.
  apply keeps_bind; [apply _|apply keeps_readonly; [apply _|apply np_loadtxt_readonly]|].
  intros K. repeat (apply keeps_bind; [apply _|by apply keeps_lift|intros ?]).
  by apply keeps_f_write.
Qed.

Lemma synthesizer_keeps (orig_dir colmap_name : string) :
  keeps (same_but (synthesizer_touches orig_dir))
    (create_mobile_brick_colmap_files orig_dir colmap_name).
Proof.
  unfold create_mobile_brick_colmap_files. fold (sparse_folder orig_dir).
  assert (Himg : synthesizer_touches orig_dir
                   (os_path_join (sparse_folder orig_dir) "images.txt")) by by left.
  assert (Hcam : synthesizer_touches orig_dir
                   (os_path_join (sparse_folder orig_dir) "cameras.txt")) by (right; by left).
  assert (Hpts : synthesizer_touches orig_dir
                   (os_path_join (sparse_folder orig_dir) "points3D.txt"))
    by (right; right; by left).
  apply keeps_bind; [apply _|apply keeps_makedirs|intros _].
  apply keeps_bind; [apply _| |intros _].
  { apply keeps_rm_rf. intros p [->|Hp]; unfold synthesizer_touches; auto. }
  do 3 (apply keeps_bind;
          [apply _|apply keeps_readonly; [apply _|apply sorted_files_readonly]|intros ?]).
  apply keeps_bind; [apply _|by apply keeps_open_w|intros _].
  do 3 (apply keeps_bind; [apply _|by apply keeps_f_write|intros _]).
  apply keeps_bind; [apply _| |intros _].
  { apply keeps_for_enumerate; [apply _..|]. intros i x. by apply keeps_write_image. }
  apply keeps_bind; [apply _|by apply keeps_open_w|intros _].
  do 2 (apply keeps_bind; [apply _|by apply keeps_f_write|intros _]).
  apply keeps_bind; [apply _| |intros _].
  { apply keeps_for_enumerate; [apply _..|]. intros i x. by apply keeps_write_camera. }
  by apply keeps_open_w.
Qed.

(** X7: whether it returns or raises, [create_mobile_brick_colmap_files]
    prints nothing and leaves every file other than its three output files
    and the notebook checkpoints below the images folder exactly as it was:
    pose, intrinsic and image files are never modified or removed.  The path
    of the scan folder is one that the shell hands on to [rm -rf] as a single
    operand. *)
Theorem synthesizer_inputs_untouched (orig_dir colmap_name p : string) (w : world) :
  shell_word orig_dir = true →
  ¬ synthesizer_touches orig_dir p →
  files (create_mobile_brick_colmap_files orig_dir colmap_name w).2 !! p = files w !! p ∧
  stdout (create_mobile_brick_colmap_files orig_dir colmap_name w).2 = stdout w.
Proof.
  intros _ Hp. destruct (synthesizer_keeps orig_dir colmap_name w) as [Hfiles Hout].
  split; [by apply Hfiles|done].
Qed.

(** *** Running the call forwards *)

Lemma bind_run {A B} (c : M A) (k : A → M B) (w w1 : world) (a : A) :
  c w = (Ok a, w1) → bind c k w = k a w1.
Proof. unfold bind. by intros ->. Qed.

Lemma bind_raise {A B} (c : M A) (k : A → M B) (w w1 : world) (e : exn) :
  c w = (Raise e, w1) → bind c k w = (Raise e, w1).
Proof. unfold bind. by intros ->. Qed.

Lemma sorted_files_cases (d : string) (w : world) :
  sorted_files d w =
  if isdir w d then ((sorted_files d w).1, w)
  else (Raise (if isfile w d then NotADirectoryError else no_entry w d), w).
Proof.
  unfold sorted_files, bind, os_listdir. destruct (isdir w d); [done|].
  by destruct (isfile w d).
Qed.

Lemma sorted_files_ok (d : string) (w : world) :
  isdir w d = true → ∃ l, sorted_files d w = (Ok l, w).
Proof.
  unfold sorted_files, bind, os_listdir. intros ->. eauto.
Qed.

Lemma sparse_folder_eq (orig_dir : string) :
  sparse_folder orig_dir = dir_prefix orig_dir +:+ "sparse/0".
Proof.
  unfold sparse_folder. rewrite (os_path_join_rel orig_dir) by done.
  by rewrite (os_path_join_under _ "s" "parse").
Qed.

Lemma sparse_folder_nonempty (orig_dir : string) : sparse_folder orig_dir ≠ "".
Proof.
  rewrite sparse_folder_eq. intros H. apply (f_equal String.length) in H.
  rewrite length_app_str in H. simpl in H. lia.
Qed.

Lemma prepare_run (orig_dir : string) (w : world) :
  clear_way w (sparse_folder orig_dir) = true →
  (os_makedirs (sparse_folder orig_dir) true >>
   rm_rf (os_path_join (os_path_join orig_dir "images") ".ipynb_checkpoints")) w
  = (Ok tt, cleaned orig_dir w).
Proof.
  intros (Hf & Ha)%clear_way_facts. unfold cleaned, bind, os_makedirs.
  rewrite (bool_decide_false (sparse_folder orig_dir = ""))
    by apply sparse_folder_nonempty.
  rewrite Hf. destruct (isdir w (sparse_folder orig_dir)); [done|]. by rewrite Ha.
Qed.

(** The folders of the world after the preparation steps. *)
Lemma cleaned_dirs (orig_dir d : string) (w : world) :
  d ∈ dirs (cleaned orig_dir w) →
  d ∈ dirs w ∨ d = sparse_folder orig_dir ∨ d ∈ ancestors (sparse_folder orig_dir).
Proof.
  unfold cleaned, rm_rf, os_makedirs. cbn [snd dirs].
  rewrite elem_of_filter. intros [_ Hin]. revert Hin.
  destruct (bool_decide (sparse_folder orig_dir = "")); [by left|].
  destruct (isfile w _); [by left|]. destruct (isdir w _); [by left|].
  destruct (file_above w _); [by left|]. cbn [snd dirs].
  rewrite !elem_of_union, elem_of_singleton, elem_of_list_to_set. tauto.
Qed.

Lemma strip_prefix_app (x a b : string) :
  strip_prefix (x +:+ a) (x +:+ b) = strip_prefix a b.
Proof.
  induction x as [|c x IH]; [done|]. rewrite !app_cons. cbn [strip_prefix].
  by rewrite bool_decide_true.
Qed.

Lemma checkpoints_eq (orig_dir : string) :
  os_path_join (os_path_join orig_dir "images") ".ipynb_checkpoints"
  = dir_prefix orig_dir +:+ "images/.ipynb_checkpoints".
Proof.
  rewrite (os_path_join_rel orig_dir) by done.
  by rewrite (os_path_join_under _ "i" "mages").
Qed.

Lemma cleaned_has_sparse (orig_dir : string) (w : world) :
  clear_way w (sparse_folder orig_dir) = true →
  sparse_folder orig_dir ∈ dirs (cleaned orig_dir w).
Proof.
  intros (Hf & Ha)%clear_way_facts. unfold cleaned, rm_rf. cbn [snd dirs].
  apply elem_of_filter. split.
  - rewrite checkpoints_eq, sparse_folder_eq. split.
    + intros H. by apply (inj (String.app _)) in H.
    + unfold below, as_dir.
      rewrite (ends_with_slash_app _ "i" "mages/.ipynb_checkpoints").
      change (ends_with_slash "images/.ipynb_checkpoints") with false. cbv iota.
      rewrite app_assoc_str, strip_prefix_app. by intros [? ?].
  - unfold os_makedirs.
    rewrite (bool_decide_false (sparse_folder orig_dir = ""))
      by apply sparse_folder_nonempty.
    rewrite Hf. destruct (isdir w (sparse_folder orig_dir)) eqn:Hd.
    + by apply bool_decide_eq_true in Hd.
    + rewrite Ha. cbn [snd dirs]. set_solver.
Qed.

(** *** The output files *)

Lemma sparse_file_under (orig_dir name : string) :
  is_abs name = false →
  os_path_join (sparse_folder orig_dir) name = sparse_folder orig_dir +:+ "/" +:+ name.
Proof.
  intros Hn. rewrite sparse_file_eq, sparse_folder_eq by done.
  by rewrite app_assoc_str.
Qed.

Lemma open_w_run (p : string) (w : world) :
  p ≠ "" → isdir w p = false → parent p ∈ dirs w →
  open_w p w = (Ok tt, MkWorld (dirs w) (<[p := Text ""]> (files w)) (stdout w)).
Proof.
  intros Hp Hd Hpar. unfold open_w, parent_is_dir. rewrite Hd.
  rewrite (bool_decide_false (p = "")) by done. unfold isdir.
  rewrite (bool_decide_true (parent p ∈ dirs w)) by done.
  by rewrite orb_true_r.
Qed.

(** An output file of the call can be opened once the preparation steps are
    done, if its name is not taken by a folder. *)
Lemma output_file_facts (orig_dir name : string) (w : world) :
  has_slash name = false →
  clear_way w (sparse_folder orig_dir) = true →
  os_path_join (sparse_folder orig_dir) name ∉ dirs w →
  let p := os_path_join (sparse_folder orig_dir) name in
  p ≠ "" ∧ isdir (cleaned orig_dir w) p = false ∧ parent p ∈ dirs (cleaned orig_dir w).
Proof.
  intros Hn Hclear Hfree. cbn zeta.
  rewrite sparse_file_under in * by by apply no_slash_not_abs.
  assert (Hlen : (String.length (sparse_folder orig_dir)
                  < String.length (sparse_folder orig_dir +:+ "/" +:+ name))%nat).
  { rewrite length_app_str. simpl. lia. }
  split; [|split].
  - intros H. rewrite H in Hlen. simpl in Hlen. lia.
  - apply bool_decide_eq_false. intros [Hd|[Hd|Hd]]%cleaned_dirs; [done| |].
    + rewrite Hd in Hlen. lia.
    + apply ancestors_shorter in Hd. lia.
  - rewrite parent_under by done. by apply cleaned_has_sparse.
Qed.

(** *** The input folders *)

Lemma sparse_ancestors (orig_dir : string) :
  plain orig_dir = true →
  ancestors (sparse_folder orig_dir)
  = (ancestors orig_dir ++ [orig_dir; orig_dir +:+ "/sparse"])%list.
Proof.
  intros Hplain. unfold sparse_folder. rewrite (plain_join orig_dir "sparse") by done.
  rewrite (os_path_join_under orig_dir "/" "sparse") by done.
  change (orig_dir +:+ "/sparse" +:+ "/" +:+ "0")
    with (orig_dir +:+ "/sparse" +:+ ("/" +:+ "0")).
  rewrite <- (app_assoc_str orig_dir "/sparse" ("/" +:+ "0")).
  rewrite (ancestors_under (orig_dir +:+ "/sparse") "0") by done.
  change (orig_dir +:+ "/sparse") with (orig_dir +:+ "/" +:+ "sparse") at 1.
  rewrite (ancestors_under orig_dir "sparse") by done.
  by rewrite <- app_assoc.
Qed.

Lemma input_folder_not_sparse (orig_dir name : string) :
  name = "pose" ∨ name = "intrinsic" ∨ name = "images" →
  os_path_join orig_dir name ≠ sparse_folder orig_dir.
Proof.
  intros Hn. rewrite sparse_folder_eq.
  destruct Hn as [->|[->| ->]]; rewrite os_path_join_rel by done;
    intros H; by apply (inj (String.app _)) in H.
Qed.

Lemma input_folder_facts (orig_dir name : string) :
  plain orig_dir = true →
  name = "pose" ∨ name = "intrinsic" ∨ name = "images" →
  (∀ a, a ∈ ancestors (os_path_join orig_dir name) →
        a ∈ ancestors (sparse_folder orig_dir)) ∧
  os_path_join orig_dir name ∉ ancestors (sparse_folder orig_dir).
Proof.
  intros Hplain Hname.
  assert (Hs : has_slash name = false) by by destruct Hname as [->|[->| ->]].
  destruct (join_under orig_dir name Hplain Hs) as (Heq & _ & _ & Hanc & Hlen).
  rewrite sparse_ancestors, Hanc by done. split.
  - intros a Ha. apply elem_of_app in Ha as [Ha|Ha%list_elem_of_singleton];
      apply elem_of_app; [by left|right]. subst a. by left.
  - intros [Ha|Ha]%elem_of_app.
    + apply ancestors_shorter in Ha. lia.
    + apply elem_of_cons in Ha as [Ha|Ha%list_elem_of_singleton].
      * rewrite Ha in Hlen. lia.
      * rewrite Heq in Ha. apply (inj (String.app _)) in Ha.
        destruct Hname as [->|[->| ->]]; discriminate.
Qed.

Lemma cleaned_isdir (orig_dir name : string) (w : world) :
  plain orig_dir = true →
  name = "pose" ∨ name = "intrinsic" ∨ name = "images" →
  os_path_join orig_dir name ∉ dirs w →
  isdir (cleaned orig_dir w) (os_path_join orig_dir name) = false.
Proof.
  intros Hplain Hname Hd. apply bool_decide_eq_false.
  intros [Hin|[Hin|Hin]]%cleaned_dirs; [done| |].
  - by apply input_folder_not_sparse in Hin.
  - by apply (input_folder_facts orig_dir name) in Hin.
Qed.

(** Listing an input folder that is not there. *)
Lemma listing_fails (orig_dir name : string) (w : world) :
  plain orig_dir = true →
  name = "pose" ∨ name = "intrinsic" ∨ name = "images" →
  clear_way w (sparse_folder orig_dir) = true →
  files w !! os_path_join orig_dir name = None →
  isdir (cleaned orig_dir w) (os_path_join orig_dir name) = false →
  sorted_files (os_path_join orig_dir name) (cleaned orig_dir w)
  = (Raise FileNotFoundError, cleaned orig_dir w).
Proof.
  intros Hplain Hname (_ & Ha)%clear_way_facts Hf Hd.
  rewrite sorted_files_cases, Hd. unfold isfile, no_entry.
  rewrite bool_decide_false.
  2:{ rewrite (cleaned_files_None _ _ _ Hf). by intros [? ?]. }
  assert (file_above (cleaned orig_dir w) (os_path_join orig_dir name) = false) as ->;
    [|done].
  apply not_true_iff_false. unfold file_above. rewrite existsb_exists.
  intros (a & Hin & Hfile). apply list_elem_of_In in Hin.
  apply (input_folder_facts orig_dir name Hplain Hname) in Hin.
  apply bool_decide_eq_true in Hfile.
  assert (Hnone : files w !! a = None).
  { apply not_true_iff_false in Ha. unfold file_above in Ha.
    rewrite existsb_exists in Ha.
    destruct (files w !! a) as [c|] eqn:Hfa; [|done]. destruct Ha.
    exists a. split; [by apply list_elem_of_In|].
    apply bool_decide_eq_true. by rewrite Hfa. }
  rewrite (cleaned_files_None _ _ _ Hnone) in Hfile. by destruct Hfile.
Qed.

(** X8: in a file system where the sparse folder is there or can be created
    (the scan folder's path is in normal form and a single operand for the
    shell, and no regular file lies at the sparse folder's path or on the way
    to it), the three input folders must all exist, the intrinsics folder too
    although its listing is never used: when none of their paths is taken by
    a regular file and one of them is not there, the call raises
    FileNotFoundError after its preparation steps and before it opens any
    output file. *)
Theorem synthesizer_missing_folder (orig_dir colmap_name : string) (w : world) :
  tidy w = true → plain orig_dir = true → shell_word orig_dir = true →
  clear_way w (sparse_folder orig_dir) = true →
  files w !! os_path_join orig_dir "pose" = None →
  files w !! os_path_join orig_dir "intrinsic" = None →
  files w !! os_path_join orig_dir "images" = None →
  (os_path_join orig_dir "pose" ∉ dirs w) ∨
  (os_path_join orig_dir "intrinsic" ∉ dirs w) ∨
  (os_path_join orig_dir "images" ∉ dirs w) →
  create_mobile_brick_colmap_files orig_dir colmap_name w
  = (Raise FileNotFoundError, cleaned orig_dir w).
Proof.
  intros _ Hplain _ Hclear Hfp Hfi Hfm Hmiss.
  unfold create_mobile_brick_colmap_files. cbn zeta.
  fold (sparse_folder orig_dir).
  pose proof (prepare_run orig_dir w Hclear) as Hprep. unfold bind at 1 in Hprep.
  unfold bind at 1.
  destruct (os_makedirs (sparse_folder orig_dir) true w) as [[[]|e] w1]; [|done].
  rewrite (bind_run _ _ _ _ _ Hprep).
  pose proof (λ name Hname, listing_fails orig_dir name w Hplain Hname Hclear) as Hfail.
  pose proof (λ name Hname, cleaned_isdir orig_dir name w Hplain Hname) as Hgone.
  set (wc := cleaned orig_dir w) in *.
  destruct (isdir wc (os_path_join orig_dir "pose")) eqn:Hpose.
  2:{ apply bind_raise. apply Hfail; auto. }
  destruct (sorted_files_ok _ _ Hpose) as [exs Hexs]. rewrite (bind_run _ _ _ _ _ Hexs).
  destruct (isdir wc (os_path_join orig_dir "intrinsic")) eqn:Hintr.
  2:{ apply bind_raise. apply Hfail; auto. }
  destruct (sorted_files_ok _ _ Hintr) as [ins Hins]. rewrite (bind_run _ _ _ _ _ Hins).
  destruct (isdir wc (os_path_join orig_dir "images")) eqn:Himg.
  2:{ apply bind_raise. apply Hfail; auto. }
  exfalso. destruct Hmiss as [Hm|[Hm|Hm]].
  - rewrite (Hgone "pose") in Hpose; auto. done.
  - rewrite (Hgone "intrinsic") in Hintr; auto. done.
  - rewrite (Hgone "images") in Himg; auto. done.
Qed.

Lemma write_image_runs (dir f : string) (i : nat) (p : string * string) (w : world)
    (chunk : string) :
  image_record dir (files w) i p chunk →
  write_image dir f i p w
  = (Ok tt, MkWorld (dirs w) (<[f := Text (text_at (files w) f +:+ chunk)]> (files w))
              (stdout w)).
Proof.
  intros (E & Ei & q & t & HE & HEi & Hq & Ht & ->).
  unfold write_image, bind. rewrite np_loadtxt_run, HE. unfold lift.
  rewrite HEi, Hq, Ht, !f_write_run. cbn [dirs files stdout].
  unfold text_at at 1. rewrite lookup_insert_eq, insert_insert_eq.
  by rewrite app_assoc_str.
Qed.

Lemma write_camera_runs (dir f : string) (i : nat) (p : string * string) (w : world)
    (chunk : string) :
  camera_record dir (files w) i p chunk →
  write_camera dir f i p w
  = (Ok tt, MkWorld (dirs w) (<[f := Text (text_at (files w) f +:+ chunk)]> (files w))
              (stdout w)).
Proof.
  intros (K & fx & fy & cx & cy & HK & Hfx & Hfy & Hcx & Hcy & ->).
  unfold write_camera, bind. rewrite np_loadtxt_run, HK. unfold lift.
  by rewrite Hfx, Hfy, Hcx, Hcy, f_write_run.
Qed.

Lemma for_enumerate_runs {A} (body : nat → A → M unit) (f : string)
    (P : gmap string content → nat → A → string → Prop) (l : list A) :
  (∀ i x w chunk, P (files w) i x chunk →
     body i x w
     = (Ok tt, MkWorld (dirs w) (<[f := Text (text_at (files w) f +:+ chunk)]> (files w))
                 (stdout w))) →
  (∀ x, x ∈ l → ∀ m c i chunk, P m i x chunk → P (<[f := c]> m) i x chunk) →
  ∀ i w, (∀ j x, l !! j = Some x → ∃ chunk, P (files w) (i + j)%nat x chunk) →
  ∃ w', for_enumerate i l body w = (Ok tt, w').
Proof.
  intros Hbody. induction l as [|x l IH]; intros Hstable i w Hall; [by exists w|].
  cbn [for_enumerate].
  destruct (Hall 0%nat x eq_refl) as [chunk HP]. rewrite Nat.add_0_r in HP.
  rewrite (bind_run _ _ _ _ _ (Hbody _ _ _ _ HP)).
  apply IH; [intros y Hy; apply Hstable; by right|].
  intros j y Hy. destruct (Hall (S j) y Hy) as [chunk' HP'].
  exists chunk'. cbn [files]. rewrite Nat.add_succ_r in HP'.
  apply Hstable; [right; by eapply list_elem_of_lookup_2|done].
Qed.

Lemma image_record_insert_2 (dir f : string) (c : content) (m : gmap string content)
    (i : nat) (p : string * string) (chunk : string) :
  os_path_join dir p.1 ≠ f →
  image_record dir m i p chunk → image_record dir (<[f := c]> m) i p chunk.
Proof. unfold image_record. intros Hne. by rewrite lookup_insert_ne. Qed.

Lemma camera_record_insert_2 (dir f : string) (c : content) (m : gmap string content)
    (i : nat) (p : string * string) (chunk : string) :
  os_path_join dir p.1 ≠ f →
  camera_record dir m i p chunk → camera_record dir (<[f := c]> m) i p chunk.
Proof. unfold camera_record. intros Hne. by rewrite lookup_insert_ne. Qed.

Lemma synthesizer_runs (orig_dir colmap_name : string) (w : world)
    (exs imgs : list string) :
  let wc := cleaned orig_dir w in
  let sparse := sparse_folder orig_dir in
  clear_way w sparse = true →
  os_path_join sparse "images.txt" ∉ dirs w →
  os_path_join sparse "cameras.txt" ∉ dirs w →
  os_path_join sparse "points3D.txt" ∉ dirs w →
  (sorted_files (os_path_join orig_dir "pose") wc).1 = Ok exs →
  (sorted_files (os_path_join orig_dir "images") wc).1 = Ok imgs →
  os_path_join orig_dir "intrinsic" ∈ dirs wc →
  (∀ i p, zip exs imgs !! i = Some p →
     (∃ rec, image_record (os_path_join orig_dir "pose") (files wc) i p rec) ∧
     (∃ cam, camera_record (os_path_join orig_dir "intrinsic") (files wc) i p cam)) →
  ∃ w', create_mobile_brick_colmap_files orig_dir colmap_name w = (Ok tt, w').
Proof.
  intros wc sparse Hclear Hfi Hfc Hfp Hexs Himgs Hintr Hall. subst sparse.
  unfold create_mobile_brick_colmap_files. cbn zeta. fold (sparse_folder orig_dir).
  pose proof (prepare_run orig_dir w Hclear) as Hprep. unfold bind at 1 in Hprep.
  unfold bind at 1.
  destruct (os_makedirs (sparse_folder orig_dir) true w) as [[[]|e] w1]; [|done].
  rewrite (bind_run _ _ _ _ _ Hprep). fold wc.
  destruct (output_file_facts orig_dir "images.txt" w eq_refl Hclear Hfi)
    as (Hi1 & Hi2 & Hi3).
  destruct (output_file_facts orig_dir "cameras.txt" w eq_refl Hclear Hfc)
    as (Hc1 & Hc2 & Hc3).
  destruct (output_file_facts orig_dir "points3D.txt" w eq_refl Hclear Hfp)
    as (Hp1 & Hp2 & Hp3).
  fold wc in Hi2, Hi3, Hc2, Hc3, Hp2, Hp3.
  assert (Hlist : ∀ d l, (sorted_files d wc).1 = Ok l →
            sorted_files d wc = (Ok l, wc) ∧ ∀ f, f ∈ l → is_abs f = false).
  { intros d l Hd. destruct (sorted_files_run d wc) as (r & Hr & Habs).
    rewrite Hr in Hd |- *. cbn [fst] in Hd. subst r. eauto. }
  destruct (Hlist _ _ Hexs) as [Hexs' Hrel]. rewrite (bind_run _ _ _ _ _ Hexs').
  destruct (sorted_files_ok (os_path_join orig_dir "intrinsic") wc) as [ins Hins].
  { unfold isdir. by apply bool_decide_eq_true. }
  rewrite (bind_run _ _ _ _ _ Hins).
  destruct (Hlist _ _ Himgs) as [Himgs' _]. rewrite (bind_run _ _ _ _ _ Himgs').
  assert (Hpairs : ∀ x, x ∈ zip exs imgs → is_abs x.1 = false).
  { intros [a b] Hx. apply Hrel. by eapply elem_of_zip_l. }
  clearbody wc.
  (* images.txt *)
  unfold bind at 1. rewrite open_w_run by done.
  unfold bind at 1. rewrite f_write_after.
  unfold bind at 1. rewrite f_write_after.
  unfold bind at 1. rewrite f_write_after.
  set (w2 := MkWorld _ _ _).
  destruct (for_enumerate_runs
              (write_image (os_path_join orig_dir "pose")
                 (os_path_join (sparse_folder orig_dir) "images.txt"))
              (os_path_join (sparse_folder orig_dir) "images.txt")
              (image_record (os_path_join orig_dir "pose")) (zip exs imgs)) with 0%nat w2
    as [w3 Hloop1].
  { intros i x w0 chunk. apply write_image_runs. }
  { intros x Hx m c i chunk. apply image_record_insert_2, pose_not_sparse; auto. }
  { intros j x Hx. destruct (Hall j x Hx) as [[rec Hrec] _]. exists rec.
    subst w2. cbn [files]. apply image_record_insert_2; [|done].
    apply pose_not_sparse; auto. eapply Hpairs, list_elem_of_lookup_2, Hx. }
  rewrite (bind_run _ _ _ _ _ Hloop1).
  eapply (for_enumerate_appends _ _ (image_record (os_path_join orig_dir "pose")))
    in Hloop1;
    [|apply write_image_ok
     |intros x Hx m c i chunk; apply image_record_insert, pose_not_sparse; auto
     |subst w2; apply lookup_insert_eq].
  destruct Hloop1 as (recs & _ & -> & _). subst w2. cbn [dirs files stdout].
  rewrite insert_insert_eq.
  (* cameras.txt *)
  unfold bind at 1. rewrite open_w_run by done. cbn [dirs files stdout].
  unfold bind at 1. rewrite f_write_after.
  unfold bind at 1. rewrite f_write_after.
  set (w4 := MkWorld _ _ _).
  assert (Hne : ∀ x name, x ∈ zip exs imgs → is_abs name = false →
            os_path_join (os_path_join orig_dir "intrinsic") x.1
            ≠ os_path_join (sparse_folder orig_dir) name).
  { intros x name Hx Hname. apply intrinsic_not_sparse; auto. }
  destruct (for_enumerate_runs
              (write_camera (os_path_join orig_dir "intrinsic")
                 (os_path_join (sparse_folder orig_dir) "cameras.txt"))
              (os_path_join (sparse_folder orig_dir) "cameras.txt")
              (camera_record (os_path_join orig_dir "intrinsic")) (zip exs imgs))
    with 0%nat w4 as [w5 Hloop2].
  { intros i x w0 chunk. apply write_camera_runs. }
  { intros x Hx m c i chunk. by apply camera_record_insert_2, Hne. }
  { intros j x Hx. destruct (Hall j x Hx) as [_ [cam Hcam]]. exists cam.
    assert (Hin : x ∈ zip exs imgs) by by eapply list_elem_of_lookup_2.
    subst w4. cbn [files]. do 2 (apply camera_record_insert_2; [by apply Hne|]). done. }
  rewrite (bind_run _ _ _ _ _ Hloop2).
  eapply (for_enumerate_appends _ _ (camera_record (os_path_join orig_dir "intrinsic")))
    in Hloop2;
    [|apply write_camera_ok
     |intros x Hx m c i chunk; apply camera_record_insert, Hne; auto
     |subst w4; apply lookup_insert_eq].
  destruct Hloop2 as (cams & _ & -> & _). subst w4. cbn [dirs files stdout].
  rewrite open_w_run by done. eauto.
Qed.

(** X9: [create_mobile_brick_colmap_files] does its work whenever its inputs
    are in order.  In a file system where the sparse folder is there or can
    be created (the scan folder's path is in normal form and a single operand
    for the shell, and no regular file lies at the sparse folder's path or on
    the way to it) and none of the three output file names is taken by a
    folder: if the intrinsics folder exists, and for each pair of the i-th
    pose file and the i-th image the pose file loads, inverts and converts to
    a quaternion and the intrinsics folder holds, under the pose file's name,
    a matrix with entries (0,0), (1,1), (0,2), (1,2), then the call returns;
    images.txt holds its header and per pair the line
    [i+1 QW QX QY QZ TX TY TZ i+1 name] and a blank line, cameras.txt its
    header and per pair [i+1 PINHOLE 1920 1440 fx fy cx cy], and points3D.txt
    is empty. *)
Theorem synthesizer_writes_model (orig_dir colmap_name : string) (w : world)
    (exs imgs : list string) :
  let wc := cleaned orig_dir w in
  let sparse := sparse_folder orig_dir in
  let pairs := zip exs imgs in
  tidy w = true → plain orig_dir = true → shell_word orig_dir = true →
  clear_way w sparse = true →
  os_path_join sparse "images.txt" ∉ dirs w →
  os_path_join sparse "cameras.txt" ∉ dirs w →
  os_path_join sparse "points3D.txt" ∉ dirs w →
  (sorted_files (os_path_join orig_dir "pose") wc).1 = Ok exs →
  (sorted_files (os_path_join orig_dir "images") wc).1 = Ok imgs →
  os_path_join orig_dir "intrinsic" ∈ dirs wc →
  (∀ i p, pairs !! i = Some p →
     (∃ rec, image_record (os_path_join orig_dir "pose") (files wc) i p rec) ∧
     (∃ cam, camera_record (os_path_join orig_dir "intrinsic") (files wc) i p cam)) →
  ∃ w' recs cams,
    create_mobile_brick_colmap_files orig_dir colmap_name w = (Ok tt, w') ∧
    files w' !! os_path_join sparse "images.txt"
      = Some (Text (images_header +:+ joined recs)) ∧
    files w' !! os_path_join sparse "cameras.txt"
      = Some (Text (cameras_header +:+ joined cams)) ∧
    files w' !! os_path_join sparse "points3D.txt" = Some (Text "") ∧
    length recs = length pairs ∧ length cams = length pairs ∧
    ∀ i p, pairs !! i = Some p →
      ∃ E Ei qx qy qz qw tx ty tz K fx fy cx cy,
        loadtxt_of (files wc !! os_path_join (os_path_join orig_dir "pose") p.1) = Ok E ∧
        arr_inv E = Ok Ei ∧
        matrix_to_quaternion (block33 Ei) = Ok (qx, qy, qz, qw) ∧
        rbind (col3 Ei) unpack3 = Ok (tx, ty, tz) ∧
        recs !! i = Some (unwords [str_nat (i + 1); str_of_float qw; str_of_float qx;
                                   str_of_float qy; str_of_float qz; str_of_float tx;
                                   str_of_float ty; str_of_float tz; str_nat (i + 1); p.2]
                          +:+ nl +:+ nl) ∧
        loadtxt_of (files wc !! os_path_join (os_path_join orig_dir "intrinsic") p.1)
          = Ok K ∧
        get2 K 0 0 = Ok fx ∧ get2 K 1 1 = Ok fy ∧ get2 K 0 2 = Ok cx ∧ get2 K 1 2 = Ok cy ∧
        cams !! i = Some (unwords [str_nat (i + 1); "PINHOLE"; "1920"; "1440";
                                   str_of_float fx; str_of_float fy; str_of_float cx;
                                   str_of_float cy] +:+ nl).
Proof.
  intros wc sparse pairs _ _ _ Hclear Hfi Hfc Hfp Hexs Himgs Hintr Hall.
  destruct (synthesizer_runs orig_dir colmap_name w exs imgs Hclear Hfi Hfc Hfp
              Hexs Himgs Hintr Hall) as [w' Hrun].
  destruct (synthesizer_ok orig_dir colmap_name w w' exs imgs Hexs Himgs Hrun)
    as (recs & cams & Hrecs & Hcams & Himg & Hcam & Hpts & Hrec).
  exists w', recs, cams. do 6 (split; [done|]).
  intros i p Hp. destruct (Hrec i p Hp) as (rec & cam & Hr & Hc & HR & HC).
  destruct HR as (E & Ei & [[[qx qy] qz] qw] & [[tx ty] tz] & HE & HEi & Hq & Ht & ->).
  destruct HC as (K & fx & fy & cx & cy & HK & ? & ? & ? & ? & ->).
  exists E, Ei, qx, qy, qz, qw, tx, ty, tz, K, fx, fy, cx, cy.
  repeat split; try done. rewrite Hr. unfold image_line. by rewrite app_assoc_str.
Qed.

End SynthesizerFurther.

(** ** Reading back what the synthesizer wrote *)

(** *** Lines and words of written text *)

Lemma rev_app_app (s t : string) : String.rev_app s t = String.rev_app s "" +:+ t.
Proof.
  revert t. induction s as [|a s IH]; intros t; [done|].
  cbn [String.rev_app]. rewrite (IH (String a t)), (IH (String a "")).
  by rewrite app_assoc_str.
Qed.

Lemma rev_rev_app (s cur : string) :
  String.rev (String.rev_app s cur) = String.rev cur +:+ s.
Proof.
  revert cur. induction s as [|a s IH]; intros cur.
  - by rewrite app_nil_r_str.
  - cbn [String.rev_app]. rewrite IH. unfold String.rev at 1. cbn [String.rev_app].
    rewrite rev_app_app. fold (String.rev cur). by rewrite app_assoc_str.
Qed.

Lemma rev_rev (s : string) : String.rev (String.rev s) = s.
Proof. unfold String.rev at 2. by rewrite rev_rev_app. Qed.

Lemma lines_go_line (s cur rest : string) :
  one_line s = true →
  lines_go cur (s +:+ String LF rest) = (String.rev cur +:+ s) :: lines_go "" rest.
Proof.
  revert cur. induction s as [|a s IH]; intros cur Hs.
  - change ("" +:+ String LF rest) with (String LF rest). cbn [lines_go].
    rewrite bool_decide_true by done. by rewrite app_nil_r_str.
  - cbn [one_line] in Hs. apply andb_true_iff in Hs as [Ha Hs].
    rewrite app_cons. cbn [lines_go].
    destruct (bool_decide (a = LF)); [done|].
    rewrite IH by done. unfold String.rev at 1. cbn [String.rev_app].
    rewrite rev_app_app. fold (String.rev cur). by rewrite app_assoc_str.
Qed.

Lemma lines_line (s rest : string) :
  one_line s = true → lines (s +:+ nl +:+ rest) = s :: lines rest.
Proof. intros Hs. unfold lines, nl. rewrite app_cons. by rewrite lines_go_line. Qed.

Lemma words_go_token (tok rest : string) (cur : option string) :
  token tok →
  String.words_go cur (tok +:+ rest)
  = String.words_go (Some (String.rev_app tok (default "" cur))) rest.
Proof.
  intros [Hne Hsp]. revert cur. induction tok as [|a tok IH]; intros cur; [done|].
  cbn [no_space] in Hsp. apply andb_true_iff in Hsp as [Ha Hsp].
  rewrite app_cons. cbn [String.words_go String.rev_app].
  destruct (Ascii.is_space a); [done|].
  assert (from_option (String a) (String a "") cur = String a (default "" cur)) as ->
    by by destruct cur.
  destruct tok as [|b tok]; [done|]. by rewrite IH.
Qed.

Lemma words_token_space (tok rest : string) :
  token tok → String.words (tok +:+ String " " rest) = tok :: String.words rest.
Proof.
  intros Htok. unfold String.words. rewrite words_go_token by done.
  cbn [String.words_go Ascii.is_space]. cbn. fold (String.rev tok). by rewrite rev_rev.
Qed.

Lemma words_token (tok : string) : token tok → String.words tok = [tok].
Proof.
  intros Htok. rewrite <- (app_nil_r_str tok) at 1. unfold String.words.
  rewrite words_go_token by done. cbn. fold (String.rev tok). by rewrite rev_rev.
Qed.

Lemma unwords_cons (x y : string) (l : list string) :
  unwords (x :: y :: l) = x +:+ String " " (unwords (y :: l)).
Proof. reflexivity. Qed.

Lemma words_unwords (l : list string) : Forall token l → String.words (unwords l) = l.
Proof.
  induction 1 as [|tok l Htok Hl IH]; [done|].
  destruct l as [|tok' l].
  - by apply words_token.
  - rewrite unwords_cons, words_token_space by done. by rewrite IH.
Qed.

Lemma one_line_app (s t : string) :
  one_line s = true → one_line t = true → one_line (s +:+ t) = true.
Proof.
  intros Hs Ht. induction s as [|a s IH]; [done|].
  cbn [one_line] in Hs. apply andb_true_iff in Hs as [Ha Hs].
  rewrite app_cons. cbn [one_line]. rewrite Ha. by apply IH.
Qed.

Lemma no_space_one_line (s : string) : no_space s = true → one_line s = true.
Proof.
  induction s as [|a s IH]; [done|]. cbn [no_space one_line].
  intros [Ha Hs]%andb_true_iff. rewrite IH by done. rewrite andb_true_r.
  case_bool_decide as E; [|done]. by rewrite E in Ha.
Qed.

Lemma one_line_unwords (l : list string) : Forall token l → one_line (unwords l) = true.
Proof.
  induction 1 as [|tok l [_ Htok] Hl IH]; [done|].
  destruct l as [|tok' l].
  - by apply no_space_one_line.
  - rewrite unwords_cons. apply one_line_app.
    + by apply no_space_one_line.
    + cbn [one_line]. by rewrite IH.
Qed.

(** decimal numerals *)
Lemma no_space_digits (d : uint) : no_space (NilEmpty.string_of_uint d) = true.
Proof. induction d; cbn; done. Qed.

Lemma to_uint_nonnil (n : nat) : Nat.to_uint n ≠ Nil.
Proof.
  rewrite <- (DecimalNat.Unsigned.of_to n) at 1. rewrite DecimalNat.Unsigned.to_of.
  apply unorm_nonnil.
Qed.

Lemma token_str_nat (n : nat) : token (str_nat n).
Proof.
  split; [|apply no_space_digits].
  unfold str_nat. pose proof (to_uint_nonnil n). by destruct (Nat.to_uint n).
Qed.

Lemma of_lu_N (d : uint) :
  DecimalPos.Unsigned.of_lu d = N.of_nat (DecimalNat.Unsigned.of_lu d).
Proof.
  induction d; cbn [DecimalPos.Unsigned.of_lu DecimalNat.Unsigned.of_lu]; lia.
Qed.

Lemma of_uint_to_uint (n : nat) : Z.of_uint (Nat.to_uint n) = Z.of_nat n.
Proof.
  unfold Z.of_uint. rewrite DecimalPos.Unsigned.of_uint_alt, of_lu_N.
  rewrite <- DecimalNat.Unsigned.of_uint_alt, DecimalNat.Unsigned.of_to. lia.
Qed.

Lemma int_of_string_digits (d : uint) :
  d ≠ Nil → NilZero.int_of_string (NilEmpty.string_of_uint d) = Some (Pos d).
Proof.
  intros Hd. pose proof (NilEmpty.usu d) as Hu.
  destruct d; [done|..]; cbn [NilEmpty.string_of_uint] in *;
    unfold NilZero.int_of_string, NilZero.uint_of_string; cbn [Ascii.eqb Bool.eqb];
    by rewrite Hu.
Qed.

Lemma int_of_string_str_nat (n : nat) :
  Z.of_int <$> NilZero.int_of_string (str_nat n) = Some (Z.of_nat n).
Proof.
  unfold str_nat. rewrite int_of_string_digits by apply to_uint_nonnil.
  cbn. by rewrite of_uint_to_uint.
Qed.

Lemma str_nat_not_comment (n : nat) :
  is_comment (str_nat n) = false.
Proof.
  unfold str_nat. by destruct (Nat.to_uint n).
Qed.

Lemma int_of_string_str_int (z : Z) :
  Z.of_int <$> NilZero.int_of_string (str_int z) = Some z.
Proof.
  unfold str_int. destruct (Z.ltb_spec z 0) as [Hneg|Hpos].
  - change ("-" +:+ ?s) with (String "-" s). unfold str_nat.
    pose proof (to_uint_nonnil (Z.to_nat (- z))) as Hnil.
    pose proof (NilEmpty.usu (Nat.to_uint (Z.to_nat (- z)))) as Hu.
    pose proof (of_uint_to_uint (Z.to_nat (- z))) as Hz.
    cbn [NilZero.int_of_string Ascii.eqb Bool.eqb]. unfold NilZero.uint_of_string.
    destruct (Nat.to_uint (Z.to_nat (- z))) as [|d|d|d|d|d|d|d|d|d|d]; [done|..].
    all: cbn [NilEmpty.string_of_uint] in *.
    all: rewrite Hu.
    all: change (Z.of_int <$> option_map Neg (Some ?x)) with (Some (- Z.of_uint x)).
    all: rewrite Hz; f_equal; lia.
  - rewrite int_of_string_str_nat. f_equal. lia.
Qed.

Lemma token_str_int (z : Z) : token (str_int z).
Proof.
  unfold str_int. destruct (z <? 0); [|apply token_str_nat].
  split; [done|]. change ("-" +:+ ?s) with (String "-" s). cbn [no_space].
  apply no_space_digits.
Qed.

(** *** The records, read back *)

Lemma parse_int_str_nat (n : nat) : parse_int (str_nat n) = Ok (Z.of_nat n).
Proof. unfold parse_int. by rewrite int_of_string_str_nat. Qed.

Section ReadBack.
Context `{NL : NumLib}.

Lemma read_comment (line : string) (rest : list string) (images : gmap Z Image)
    (tok : string) (elems : list string) :
  String.words line = tok :: elems → is_comment tok = true →
  read_image_records (line :: rest) images = read_image_records rest images.
Proof. intros Hw Hc. cbn [read_image_records]. by rewrite Hw, Hc. Qed.

Lemma read_header (rest : string) (images : gmap Z Image) :
  read_image_records (lines (images_header +:+ rest)) images
  = read_image_records (lines rest) images.
Proof.
  unfold images_header. rewrite !app_assoc_str. rewrite !lines_line by reflexivity.
  do 3 (erewrite read_comment; [|vm_compute; reflexivity|reflexivity]). done.
Qed.

Lemma read_record (line : string) (rest : list string) (im : Image)
    (images : gmap Z Image) :
  (∃ tok elems, String.words line = tok :: elems ∧ is_comment tok = false) →
  parse_image_line (String.words line) [] = Ok im →
  read_image_records (line :: "" :: rest) images
  = read_image_records rest (<[img_id im := im]> images).
Proof.
  intros (tok & elems & Hw & Hc) Hp. cbn [read_image_records].
  rewrite Hw in Hp |- *. rewrite Hc. change (String.words "") with (@nil string).
  by rewrite Hp.
Qed.

Lemma lines_record (line rest : string) :
  one_line line = true →
  lines (((line +:+ nl) +:+ nl) +:+ rest) = line :: "" :: lines rest.
Proof.
  intros Hone. rewrite !app_assoc_str. rewrite lines_line by done.
  change (nl +:+ rest) with ("" +:+ nl +:+ rest). by rewrite lines_line.
Qed.

Lemma enter_items (ims : list Image) : ∀ images : gmap Z Image,
  NoDup (img_id <$> ims) → (∀ im, im ∈ ims → images !! img_id im = None) →
  map_to_list (enter images ims)
  ≡ₚ (((λ im, (img_id im, im)) <$> ims) ++ map_to_list images)%list.
Proof.
  induction ims as [|im ims IH]; intros images Hnd Hnew; [done|].
  rewrite fmap_cons in Hnd. apply NoDup_cons in Hnd as [Hnotin Hnd].
  change (enter images (im :: ims)) with (enter (<[img_id im := im]> images) ims).
  rewrite IH; [|done|].
  - rewrite map_to_list_insert by (apply Hnew; left).
    rewrite fmap_cons. by rewrite <- Permutation_middle.
  - intros im' Hin. rewrite lookup_insert_ne; [apply Hnew; by right|].
    intros Heq. apply Hnotin. rewrite Heq. apply list_elem_of_fmap. eauto.
Qed.

Lemma ids_sorted (ims : list Image) : ∀ k : nat,
  (∀ j im, ims !! j = Some im → img_id im = Z.of_nat (k + j + 1)) →
  StronglySorted key_lt ((λ im, (img_id im, im)) <$> ims).
Proof.
  induction ims as [|im ims IH]; intros k Hid; [constructor|].
  rewrite fmap_cons. constructor.
  - apply (IH (S k)). intros j im' Hj. rewrite (Hid (S j) im' Hj). f_equal; lia.
  - rewrite Forall_fmap. apply Forall_lookup. intros j im' Hj. unfold key_lt. cbn.
    rewrite (Hid 0%nat im eq_refl), (Hid (S j) im' Hj). lia.
Qed.

Lemma ids_NoDup (ims : list Image) (k : nat) :
  (∀ j im, ims !! j = Some im → img_id im = Z.of_nat (k + j + 1)) →
  NoDup (img_id <$> ims).
Proof.
  intros Hid. apply NoDup_alt. intros i j x Hi Hj.
  rewrite list_lookup_fmap in Hi, Hj.
  destruct (ims !! i) as [im1|] eqn:H1; [|done].
  destruct (ims !! j) as [im2|] eqn:H2; [|done].
  cbn in Hi, Hj. injection Hi as <-. injection Hj as Heq.
  rewrite (Hid i im1 H1), (Hid j im2 H2) in Heq. lia.
Qed.

Lemma sorted_items_enter (ims : list Image) :
  (∀ j im, ims !! j = Some im → img_id im = Z.of_nat (0 + j + 1)) →
  sorted_items (enter ∅ ims) = (λ im, (img_id im, im)) <$> ims.
Proof.
  intros Hid. apply (StronglySorted_unique_strong key_lt).
  - intros x1 x2 _ _. unfold key_lt. lia.
  - apply sorted_items_sorted.
  - by apply (ids_sorted _ 0).
  - rewrite sorted_items_perm, enter_items.
    + by rewrite map_to_list_empty, app_nil_r.
    + by apply (ids_NoDup _ 0).
    + intros. apply lookup_empty.
Qed.

(** From here on, printing a float and parsing the text gives the float
    back, and the text printed for a float is one token. *)
Hypothesis float_print_parse : ∀ x : float, float_of_str (str_of_float x) = Some x.
Hypothesis float_print_token : ∀ x : float, token (str_of_float x).

Lemma parse_written (i : nat) (q : quat) (t : vec3) (name : string) :
  token name →
  ∃ line, image_line i q t name = line +:+ nl ∧ one_line line = true ∧
    (∃ tok elems, String.words line = tok :: elems ∧ is_comment tok = false) ∧
    parse_image_line (String.words line) [] = Ok (written_image i q t name).
Proof.
  intros Hname. destruct q as [[[qx qy] qz] qw], t as [[tx ty] tz].
  eexists. split; [reflexivity|].
  assert (Forall token
            [str_nat (i + 1); str_of_float qw; str_of_float qx; str_of_float qy;
             str_of_float qz; str_of_float tx; str_of_float ty; str_of_float tz;
             str_nat (i + 1); name]) as Htoks
    by (repeat (constructor;
                  [first [apply token_str_nat | apply float_print_token | assumption]|]);
        constructor).
  split; [by apply one_line_unwords|].
  rewrite words_unwords by done. split.
  - eexists _, _. split; [done|]. apply str_nat_not_comment.
  - cbn [parse_image_line parse_quat parse_vec3 parse_points2D].
    rewrite !parse_int_str_nat. unfold parse_float. rewrite !float_print_parse.
    reflexivity.
Qed.

(** The pass of the reader over the records that the first loop wrote: record
    [j] becomes image [j + 1]. *)
Lemma read_records (Q : nat → quat → vec3 → string → Prop) (recs : list string) :
  ∀ k : nat,
  (∀ j rec, recs !! j = Some rec →
     ∃ q t name, Q (k + j)%nat q t name ∧ token name ∧
                 rec = image_line (k + j) q t name +:+ nl) →
  ∃ ims : list Image,
    length ims = length recs ∧
    (∀ j, (j < length recs)%nat →
       ∃ q t name, Q (k + j)%nat q t name ∧
                   ims !! j = Some (written_image (k + j) q t name)) ∧
    ∀ images, read_image_records (lines (joined recs)) images = Ok (enter images ims).
Proof.
  induction recs as [|rec recs IH]; intros k Hall.
  - exists []. split; [done|]. split; [|done]. intros j Hj. cbn in Hj. lia.
  - destruct (Hall 0%nat rec eq_refl) as (q & t & name & HQ & Hname & ->).
    destruct (IH (S k)) as (ims & Hlen & Hims & Hread).
    { intros j r Hj. destruct (Hall (S j) r Hj) as (q' & t' & n' & ? & ? & ?).
      exists q', t', n'. by replace (S k + j)%nat with (k + S j)%nat by lia. }
    exists (written_image (k + 0) q t name :: ims).
    split; [cbn; by rewrite Hlen|]. split.
    + intros [|j] Hj.
      * by exists q, t, name.
      * cbn in Hj. destruct (Hims j ltac:(lia)) as (q' & t' & n' & ? & ?).
        exists q', t', n'. by replace (k + S j)%nat with (S k + j)%nat by lia.
    + intros images.
      destruct (parse_written (k + 0) q t name Hname) as (line & Hline & Hone & Hdata & Hp).
      change (joined (?a :: ?b)) with (a +:+ joined b). rewrite Hline.
      rewrite lines_record by done. rewrite (read_record _ _ _ _ Hdata Hp).
      by rewrite Hread.
Qed.

Lemma written_image_id (i : nat) (q : quat) (t : vec3) (name : string) :
  img_id (written_image i q t name) = Z.of_nat (i + 1).
Proof. by destruct q as [[[??]?]?]. Qed.

End ReadBack.

Section RoundTrip.
Context `{NL : NumLib}.

(** [poses_from_file] on an images list made of the header and of records
    that the reader turns into the images [ims], numbered from 1. *)
Lemma read_back_file (w : world) (path : string) (recs : list string)
    (ims : list Image) :
  files w !! path = Some (Text (images_header +:+ joined recs)) →
  (∀ images, read_image_records (lines (joined recs)) images = Ok (enter images ims)) →
  (∀ j im, ims !! j = Some im → img_id im = Z.of_nat (0 + j + 1)) →
  poses_from_file path w
  = (if decide (ims = []) then Raise ValueError else Ok (pose_of <$> ims), w).
Proof.
  intros Hf Hread Hid. rewrite poses_from_file_run, read_images_text_run, Hf. cbn [fst].
  rewrite read_header, Hread.
  pose proof (sorted_items_enter ims Hid) as Hs.
  destruct ims as [|im ims].
  - rewrite decide_True by done. by rewrite decide_True by done.
  - rewrite decide_False.
    + rewrite decide_False by done. rewrite Hs. by rewrite <- list_fmap_compose.
    + intros Hemp. apply sorted_items_nil in Hemp. by rewrite Hs in Hemp.
Qed.

(** X10: what [create_mobile_brick_colmap_files] writes, [poses_from_file]
    reads back.  Provided that printing a float and parsing the text gives the
    float back, that a printed float is one token, that the image file names
    hold no white space, and that the path of the scan folder is one that the
    shell hands on as a single operand: after a call that returned on a scan with at
    least one pair of a pose file and an image, [poses_from_file] on the
    images.txt it wrote returns one pose per pair, in the order of the sorted
    pose files, and leaves the world as it is.  The i-th pose is built from
    the inverse of the i-th pose file's matrix: its rotation is [q_to_R] of
    the quaternion of the upper left block, reordered from scalar-last to
    scalar-first, and its last column is the translation column. *)
Theorem synthesizer_read_back (orig_dir colmap_name : string) (w w' : world)
    (exs imgs : list string) :
  let wc := cleaned orig_dir w in
  let pairs := zip exs imgs in
  shell_word orig_dir = true →
  (∀ x : float, float_of_str (str_of_float x) = Some x) →
  (∀ x : float, token (str_of_float x)) →
  (sorted_files (os_path_join orig_dir "pose") wc).1 = Ok exs →
  (sorted_files (os_path_join orig_dir "images") wc).1 = Ok imgs →
  Forall token imgs →
  pairs ≠ [] →
  create_mobile_brick_colmap_files orig_dir colmap_name w = (Ok tt, w') →
  ∃ poses,
    poses_from_file (os_path_join (sparse_folder orig_dir) "images.txt") w'
    = (Ok poses, w') ∧
    length poses = length pairs ∧
    ∀ i p, pairs !! i = Some p →
      ∃ E Ei qx qy qz qw tx ty tz,
        loadtxt_of (files wc !! os_path_join (os_path_join orig_dir "pose") p.1) = Ok E ∧
        arr_inv E = Ok Ei ∧
        matrix_to_quaternion (block33 Ei) = Ok (qx, qy, qz, qw) ∧
        rbind (col3 Ei) unpack3 = Ok (tx, ty, tz) ∧
        poses !! i = Some (cat_col (q_to_R (qw, qx, qy, qz)) (tx, ty, tz)).
Proof.
  intros wc pairs _ Hpp Hpt Hexs Himgs Htok Hne Hrun.
  destruct (synthesizer_ok orig_dir colmap_name w w' exs imgs Hexs Himgs Hrun)
    as (recs & cams & Hrecs & _ & Himg & _ & _ & Hrec).
  fold wc pairs in Hrecs, Hrec.
  set (Q := λ (i : nat) (q : quat) (t : vec3) (name : string),
         ∃ p E Ei, pairs !! i = Some p ∧ name = p.2 ∧
           loadtxt_of (files wc !! os_path_join (os_path_join orig_dir "pose") p.1) = Ok E ∧
           arr_inv E = Ok Ei ∧ matrix_to_quaternion (block33 Ei) = Ok q ∧
           rbind (col3 Ei) unpack3 = Ok t).
  destruct (read_records Hpp Hpt Q recs 0) as (ims & Hlen & Hims & Hread).
  { intros j rec Hj.
    assert (is_Some (pairs !! j)) as [p Hp].
    { apply lookup_lt_is_Some. rewrite <- Hrecs. by eapply lookup_lt_Some. }
    destruct (Hrec j p Hp)
      as (rec' & cam & Hr & _ & (E & Ei & q & t & HE & HEi & Hq & Ht & ->) & _).
    rewrite Hj in Hr. injection Hr as ->. exists q, t, p.2.
    split; [by exists p, E, Ei|]. split; [|done].
    rewrite Forall_forall in Htok. apply Htok. destruct p as [a b].
    eapply (elem_of_zip_r a). eapply list_elem_of_lookup_2. exact Hp. }
  assert (Hid : ∀ j im, ims !! j = Some im → img_id im = Z.of_nat (0 + j + 1)).
  { intros j im Hj. destruct (Hims j) as (q & t & n & _ & Hj').
    { rewrite <- Hlen. by eapply lookup_lt_Some. }
    rewrite Hj in Hj'. injection Hj' as ->. apply written_image_id. }
  exists (pose_of <$> ims). rewrite (read_back_file _ _ recs ims Himg Hread Hid).
  rewrite decide_False.
  2: { intros ->. cbn in Hlen. rewrite Hrecs in Hlen. by destruct pairs. }
  split; [done|]. split; [by rewrite length_fmap, Hlen|].
  intros i p Hp.
  destruct (Hims i)
    as (q & t & n & (p' & E & Ei & Hp' & -> & HE & HEi & Hq & Ht) & Hi).
  { rewrite Hrecs. by eapply lookup_lt_Some. }
  change (0 + i)%nat with i in Hp', Hi. rewrite Hp in Hp'. injection Hp' as <-.
  destruct q as [[[qx qy] qz] qw], t as [[tx ty] tz].
  exists E, Ei, qx, qy, qz, qw, tx, ty, tz. do 4 (split; [done|]).
  by rewrite list_lookup_fmap, Hi.
Qed.

(** X11: a scan without a pair of a pose file and an image is accepted by
    [create_mobile_brick_colmap_files] and rejected by [poses_from_file].  In
    a file system where the sparse folder is there or can be created (the
    scan folder's path is in normal form and a single operand for the shell,
    and no regular file lies at the sparse folder's path or on the way to it)
    and none of the three output file names is taken by a folder: if the
    intrinsics folder exists and the pose folder or the images folder holds
    no file, the call returns, and [poses_from_file] on the images.txt it
    wrote raises ValueError. *)
Theorem synthesizer_empty_scan (orig_dir colmap_name : string) (w : world)
    (exs imgs : list string) :
  let wc := cleaned orig_dir w in
  let sparse := sparse_folder orig_dir in
  tidy w = true → plain orig_dir = true → shell_word orig_dir = true →
  clear_way w sparse = true →
  os_path_join sparse "images.txt" ∉ dirs w →
  os_path_join sparse "cameras.txt" ∉ dirs w →
  os_path_join sparse "points3D.txt" ∉ dirs w →
  (sorted_files (os_path_join orig_dir "pose") wc).1 = Ok exs →
  (sorted_files (os_path_join orig_dir "images") wc).1 = Ok imgs →
  os_path_join orig_dir "intrinsic" ∈ dirs wc →
  exs = [] ∨ imgs = [] →
  ∃ w',
    create_mobile_brick_colmap_files orig_dir colmap_name w = (Ok tt, w') ∧
    files w' !! os_path_join sparse "images.txt" = Some (Text images_header) ∧
    poses_from_file (os_path_join sparse "images.txt") w' = (Raise ValueError, w').
Proof.
  intros wc sparse _ _ _ Hclear Hfi Hfc Hfp Hexs Himgs Hintr Hempty. subst sparse.
  assert (Hzip : zip exs imgs = []).
  { destruct Hempty as [-> | ->]; [done|]. by destruct exs. }
  destruct (synthesizer_runs orig_dir colmap_name w exs imgs Hclear Hfi Hfc Hfp
              Hexs Himgs Hintr) as [w' Hrun].
  { intros i p Hp. by rewrite Hzip in Hp. }
  destruct (synthesizer_ok orig_dir colmap_name w w' exs imgs Hexs Himgs Hrun)
    as (recs & cams & Hrecs & _ & Himg & _).
  rewrite Hzip in Hrecs. destruct recs; [|done].
  exists w'. split; [done|]. split.
  - rewrite Himg. cbn [joined foldr]. by rewrite app_nil_r_str.
  - rewrite (read_back_file w' _ [] [] Himg); [done..|].
    intros j im Hj. by rewrite lookup_nil in Hj.
Qed.

End RoundTrip.

(** ** Runs on concrete files, with the integer instance *)

#[local] Existing Instance IntLib.lib.


(** The output folder cannot be created: below a regular file, and at the
    empty path. *)
Example extract_frames_folder_unreachable :
  extract_frames "v.mp4" "v.mp4/out" 2 false studio = (Raise NotADirectoryError, studio) ∧
  extract_frames "v.mp4" "" 2 false studio = (Raise FileNotFoundError, studio).
Proof. by vm_compute. Qed.

(** The output folder is a regular file: [os.path.exists] holds, no folder is
    created, every [cv2.imwrite] fails silently and the call returns. *)
Example extract_frames_folder_is_file :
  extract_frames "v.mp4" "v.mp4" 2 false studio = (Ok tt, studio).
Proof. by vm_compute. Qed.

(** An input folder that is a regular file, and an output file name taken by
    a folder. *)
Example synthesizer_blocked :
  (create_mobile_brick_colmap_files "scan" "brick"
     (MkWorld {[ "scan"; "scan/intrinsic"; "scan/images" ]}
        {[ "scan/pose" := Text "" ]} [])).1
  = Raise NotADirectoryError ∧
  (create_mobile_brick_colmap_files "scan" "brick"
     (MkWorld {[ "scan"; "scan/pose"; "scan/intrinsic"; "scan/images"; "scan/sparse";
                 "scan/sparse/0"; "scan/sparse/0/images.txt" ]} ∅ [])).1
  = Raise IsADirectoryError ∧
  (create_mobile_brick_colmap_files "scan" "brick"
     (MkWorld {[ "scan" ]} {[ "scan/sparse" := Text "" ]} [])).1
  = Raise NotADirectoryError.
Proof. by vm_compute. Qed.

Example poses_from_file_model :
  (poses_from_file "m/images.txt" model).1
  = Ok [((1, 0, 0, -5), (0, 1, 0, -6), (0, 0, 1, -7));
        ((1, 0, 0, -1), (0, -1, 0, 2), (0, 0, -1, 3))].
Proof. by vm_compute. Qed.

Example poses_from_file_short_record :
  (poses_from_file "m/images.txt"
     (MkWorld {[ "m" ]} {[ "m/images.txt" := Text "1 1 0 0 0 -5 -6 -7 1" ]} [])).1
  = Raise IndexError.
Proof. by vm_compute. Qed.

Example poses_from_file_bad_number :
  (poses_from_file "m/images.txt"
     (MkWorld {[ "m" ]} {[ "m/images.txt" := Text "1 1 0 zero 0 -5 -6 -7 1 a.jpg" ]} [])).1
  = Raise ValueError.
Proof. by vm_compute. Qed.

Example poses_from_file_comments_only :
  (poses_from_file "m/images.txt"
     (MkWorld {[ "m" ]} {[ "m/images.txt" := Text "# nothing here
" ]} [])).1
  = Raise ValueError.
Proof. by vm_compute. Qed.

Lemma poses_from_file_sorted_witness :
  ∃ items : list (Z * Image),
    poses_from_file "m/images.txt" model
    = (Ok ((λ kv, cat_col (q_to_R (qvec kv.2)) (tvec kv.2)) <$> items), model) ∧
    items ≡ₚ map_to_list model_images ∧
    StronglySorted (λ a b, a.1 < b.1) items ∧
    (∀ kv, kv ∈ items → img_id kv.2 = kv.1) ∧
    items ≠ [].
Proof.
  apply (poses_from_file_sorted "m/images.txt" model model_images).
  - reflexivity.
  - apply insert_non_empty.
Defined.



Example synthesizer_scan :
  let r := create_mobile_brick_colmap_files "scan" "brick" scan in
  r.1 = Ok tt ∧
  files r.2 !! "scan/sparse/0/images.txt"
  = Some (Text "# Image list with two lines of data per image:
#   IMAGE_ID, QW, QX, QY, QZ, TX, TY, TZ, CAMERA_ID, NAME
#   POINTS2D[] as (X, Y, POINT3D_ID)
1 1 0 0 0 -5 -6 -7 1 0.jpg

2 0 1 0 0 -1 2 3 2 1.jpg

") ∧
  files r.2 !! "scan/sparse/0/cameras.txt"
  = Some (Text "# Camera list with one line of data per camera:
#   CAMERA_ID, MODEL, WIDTH, HEIGHT, PARAMS[]
1 PINHOLE 1920 1440 100 101 50 51
2 PINHOLE 1920 1440 200 201 60 61
") ∧
  files r.2 !! "scan/sparse/0/points3D.txt" = Some (Text "") ∧
  (poses_from_file "scan/sparse/0/images.txt" r.2).1
  = Ok [((1, 0, 0, -5), (0, 1, 0, -6), (0, 0, 1, -7));
        ((1, 0, 0, -1), (0, -1, 0, 2), (0, 0, -1, 3))].
Proof. by vm_compute. Qed.

Lemma synthesizer_record_count_witness :
  ∃ w' recs cams,
    create_mobile_brick_colmap_files "scan" "brick" scan = (Ok tt, w') ∧
    files w' !! "scan/sparse/0/images.txt" = Some (Text (images_header +:+ joined recs)) ∧
    files w' !! "scan/sparse/0/cameras.txt" = Some (Text (cameras_header +:+ joined cams)) ∧
    length recs = 2%nat ∧ length cams = 2%nat.
Proof.
  destruct (synthesizer_record_count "scan" "brick" scan ["0.txt"; "1.txt"] ["0.jpg"; "1.jpg"])
    as [Hok _]; [vm_compute; reflexivity | vm_compute; reflexivity |].
  assert (Hrun : (create_mobile_brick_colmap_files "scan" "brick" scan).1 = Ok tt)
    by (vm_compute; reflexivity).
  destruct (create_mobile_brick_colmap_files "scan" "brick" scan) as [r w'].
  cbn [fst] in Hrun. subst r.
  destruct (Hok w' eq_refl) as (recs & cams & H1 & H2 & H3 & H4 & _).
  exists w', recs, cams. repeat split; assumption.
Defined.


(** ** Instances of the further properties *)

Lemma extract_frames_raises_iff_witness :
  (extract_frames "v.mp4" "out" 0 true studio).1 = Raise ZeroDivisionError.
Proof.
  destruct (extract_frames_raises_iff "v.mp4" "out" 0 true studio) as [_ [_ H]];
    [reflexivity..|].
  apply H. split; [reflexivity|]. exists clip. split; [reflexivity|discriminate].
Defined.

Lemma extract_frames_no_frames_witness :
  ∃ w', extract_frames "e.mp4" "out" 0 true idle = (Ok tt, w') ∧ files w' = files idle.
Proof.
  apply (extract_frames_no_frames "e.mp4" "out" 0 true idle blank); reflexivity.
Defined.

Lemma extract_frames_large_interval_witness :
  ∃ w', extract_frames "v.mp4" "out" 5 false studio = (Ok tt, w') ∧
    files w' = <["out/IMG_00000.png" := Png [1%N]]> (files studio).
Proof.
  apply (extract_frames_large_interval "v.mp4" "out" 5 false studio clip
           [1%N] [[2%N]; [3%N]; [4%N]; [5%N]]).
  - reflexivity.
  - reflexivity.
  - reflexivity.
  - reflexivity.
  - reflexivity.
  - apply not_elem_of_empty.
  - discriminate.
  - simpl. lia.
Defined.

Lemma extract_frames_rerun_witness :
  ∃ w1 w2,
    extract_frames "v.mp4" "out" 2 false studio = (Ok tt, w1) ∧
    extract_frames "v.mp4" "out" 2 false w1 = (Ok tt, w2) ∧
    files w2 = files w1 ∧ dirs w2 = dirs w1.
Proof.
  apply (extract_frames_rerun "v.mp4" "out" 2 false studio clip).
  - reflexivity.
  - reflexivity.
  - reflexivity.
  - reflexivity.
  - lia.
  - intros c. split; [apply not_elem_of_empty|discriminate].
Defined.

Lemma extract_frames_quiet_witness :
  stdout (extract_frames "v.mp4" "out" 2 false studio).2 = [].
Proof.
  apply (extract_frames_quiet "v.mp4" "out" 2 studio); reflexivity.
Defined.

Lemma frame_names_sorted_witness : (frame_name 7 ?= frame_name 12)%string = Lt.
Proof.
  apply (frame_names_sorted 7 12).
  - lia.
  - apply Nat.ltb_lt. vm_compute. reflexivity.
Defined.

Lemma synthesizer_inputs_untouched_witness :
  files (create_mobile_brick_colmap_files "scan" "brick" scan).2 !! "scan/pose/0.txt"
  = files scan !! "scan/pose/0.txt" ∧
  stdout (create_mobile_brick_colmap_files "scan" "brick" scan).2 = stdout scan.
Proof.
  apply (synthesizer_inputs_untouched "scan" "brick" "scan/pose/0.txt" scan).
  - reflexivity.
  - intros [H|[H|[H|[H|H]]]]; try discriminate.
    vm_compute in H. by destruct H.
Defined.

Lemma synthesizer_missing_folder_witness :
  create_mobile_brick_colmap_files "scan" "brick" idle
  = (Raise FileNotFoundError, cleaned "scan" idle).
Proof.
  apply (synthesizer_missing_folder "scan" "brick" idle).
  - reflexivity.
  - reflexivity.
  - reflexivity.
  - reflexivity.
  - reflexivity.
  - reflexivity.
  - reflexivity.
  - left. apply not_elem_of_empty.
Defined.

Lemma synthesizer_empty_scan_witness :
  ∃ w',
    create_mobile_brick_colmap_files "scan" "brick" empty_scan = (Ok tt, w') ∧
    files w' !! "scan/sparse/0/images.txt" = Some (Text images_header) ∧
    poses_from_file "scan/sparse/0/images.txt" w' = (Raise ValueError, w').
Proof.
  apply (synthesizer_empty_scan "scan" "brick" empty_scan [] []).
  - reflexivity.
  - reflexivity.
  - reflexivity.
  - reflexivity.
  - refine (bool_decide_unpack _ _). vm_compute. exact I.
  - refine (bool_decide_unpack _ _). vm_compute. exact I.
  - refine (bool_decide_unpack _ _). vm_compute. exact I.
  - vm_compute. reflexivity.
  - vm_compute. reflexivity.
  - refine (bool_decide_unpack _ _). vm_compute. exact I.
  - by left.
Defined.

Lemma synthesizer_writes_model_witness :
  ∃ w' recs cams,
    create_mobile_brick_colmap_files "scan" "brick" scan = (Ok tt, w') ∧
    files w' !! "scan/sparse/0/images.txt" = Some (Text (images_header +:+ joined recs)) ∧
    files w' !! "scan/sparse/0/cameras.txt" = Some (Text (cameras_header +:+ joined cams)) ∧
    files w' !! "scan/sparse/0/points3D.txt" = Some (Text "") ∧
    length recs = 2%nat ∧ length cams = 2%nat.
Proof.
  assert (Hexs : (sorted_files "scan/pose" (cleaned "scan" scan)).1 = Ok ["0.txt"; "1.txt"])
    by (vm_compute; reflexivity).
  assert (Himgs : (sorted_files "scan/images" (cleaned "scan" scan)).1
                  = Ok ["0.jpg"; "1.jpg"])
    by (vm_compute; reflexivity).
  assert (Hrun : (create_mobile_brick_colmap_files "scan" "brick" scan).1 = Ok tt)
    by (vm_compute; reflexivity).
  destruct (create_mobile_brick_colmap_files "scan" "brick" scan) as [r w0] eqn:Hcall.
  cbn [fst] in Hrun. subst r.
  destruct (synthesizer_ok "scan" "brick" scan w0 ["0.txt"; "1.txt"] ["0.jpg"; "1.jpg"]
              Hexs Himgs Hcall) as (recs0 & cams0 & _ & _ & _ & _ & _ & Hrec).
  destruct (synthesizer_writes_model "scan" "brick" scan ["0.txt"; "1.txt"]
              ["0.jpg"; "1.jpg"])
    as (w' & recs & cams & H1 & H2 & H3 & H4 & H5 & H6 & _).
  - reflexivity.
  - reflexivity.
  - reflexivity.
  - reflexivity.
  - refine (bool_decide_unpack _ _). vm_compute. exact I.
  - refine (bool_decide_unpack _ _). vm_compute. exact I.
  - refine (bool_decide_unpack _ _). vm_compute. exact I.
  - exact Hexs.
  - exact Himgs.
  - refine (bool_decide_unpack _ _). vm_compute. exact I.
  - intros i p Hp. pose proof (Hrec i p Hp) as (rec & cam & _ & _ & HR & HC). eauto.
  - rewrite Hcall in H1. exists w', recs, cams. repeat split; assumption.
Defined.

Lemma synthesizer_read_back_witness :
  ∃ w' poses,
    create_mobile_brick_colmap_files "scan" "brick" scan = (Ok tt, w') ∧
    poses_from_file "scan/sparse/0/images.txt" w' = (Ok poses, w') ∧
    length poses = 2%nat.
Proof.
  assert (Hrun : (create_mobile_brick_colmap_files "scan" "brick" scan).1 = Ok tt)
    by (vm_compute; reflexivity).
  destruct (create_mobile_brick_colmap_files "scan" "brick" scan) as [r w'] eqn:Hcall.
  cbn [fst] in Hrun. subst r.
  destruct (synthesizer_read_back "scan" "brick" scan w' ["0.txt"; "1.txt"]
              ["0.jpg"; "1.jpg"]) as (poses & Hread & Hlen & _).
  - reflexivity.
  - exact int_of_string_str_int.
  - exact token_str_int.
  - vm_compute. reflexivity.
  - vm_compute. reflexivity.
  - repeat (constructor; [by split|]). constructor.
  - discriminate.
  - exact Hcall.
  - exists w', poses. repeat split; assumption.
Defined.


(** C3, at an input where the code departs from it: with one pose file, one
    intrinsic file and one image, the second loop looks for the intrinsic
    matrix under the pose file's name, the call raises FileNotFoundError,
    cameras.txt is left with its header only and points3D.txt is not created. *)
Lemma synthesizer_misnamed_intrinsic :
  let r := create_mobile_brick_colmap_files "scan" "brick" misnamed_scan in
  (sorted_files "scan/pose" misnamed_scan).1 = Ok ["a.txt"] ∧
  (sorted_files "scan/intrinsic" misnamed_scan).1 = Ok ["b.txt"] ∧
  (sorted_files "scan/images" misnamed_scan).1 = Ok ["a.png"] ∧
  r.1 = Raise FileNotFoundError ∧
  files r.2 !! "scan/sparse/0/cameras.txt" = Some (Text cameras_header) ∧
  files r.2 !! "scan/sparse/0/points3D.txt" = None.
Proof. by vm_compute. Qed.
